(** * faisync: indexed random access to FASTA files

    A shallow embedding of the crate's index parser ([parser.rs]), the FAI
    index and its offset translation ([fai.rs]), the sequence sources
    ([contig.rs]) and the [Fasta] facade ([fasta.rs]).

    Conventions of the embedding:
    - [u64] and [usize] values are [Z]; arithmetic follows release builds
      (no overflow checks): [+], [*] and [-] wrap modulo 2^64, while a
      division or remainder by zero panics in every build ([Panic]).
    - A Rust [String] built by [b as char] from bytes is a [list byte]: each
      element is the code point of one char (all below 256).
    - The reader shared behind [Arc<Mutex<R>>] is a state threaded through
      every read; the lock only serialises these sequential steps. *)

From Stdlib Require Import ZArith Lia.
From Stdlib Require Import Strings.Byte Strings.String Strings.Ascii.
From stdpp Require Import base gmap strings list.

Local Open Scope Z_scope.

(** ** Machine integers and panics *)

Definition u64_modulus : Z := 2 ^ 64.
Definition wrap64 (x : Z) : Z := x mod u64_modulus.
Definition is_u64 (x : Z) : Prop := 0 <= x < u64_modulus.

Definition add64 (a b : Z) : Z := wrap64 (a + b).
Definition mul64 (a b : Z) : Z := wrap64 (a * b).
Definition sub64 (a b : Z) : Z := wrap64 (a - b).

(** A computation that returns or panics. *)
Inductive outcome (A : Type) : Type :=
| Ret (a : A)
| Panic.
Arguments Ret {A} a.
Arguments Panic {A}.

Global Instance outcome_ret : MRet outcome := fun _ a => Ret a.
Global Instance outcome_bind : MBind outcome :=
  fun _ _ f m => match m with Ret a => f a | Panic => Panic end.

(** [a / b] and [a % b] on [u64]: "attempt to divide by zero" panics. *)
Definition div64 (a b : Z) : outcome Z := if b =? 0 then Panic else Ret (a / b).
Definition rem64 (a b : Z) : outcome Z := if b =? 0 then Panic else Ret (a mod b).

(** [std::result::Result]. *)
Inductive result (A E : Type) : Type :=
| Ok (a : A)
| Err (e : E).
Arguments Ok {A E} a.
Arguments Err {A E} e.

(** ** error.rs *)

Inductive io_error : Type :=
| UnexpectedEof
| InvalidData
| OsError (code : Z).

Inductive error : Type :=
| NoFAIDX
| ParseError
| InvalidRegion
| Io (e : io_error).

(** ** fai.rs: [FaiEntry] and [FaiIndex] *)

Module FaiEntry.
Record t : Type := mk {
  name : string;
  length : Z;
  offset : Z;
  line_bases : Z;
  line_width : Z;
}.
End FaiEntry.

(** [HashMap<String, FaiEntry>] *)
Record FaiIndex : Type := { entries : gmap string FaiEntry.t }.

(** [FaiIndex::get_region_offsets] *)
Definition get_region_offsets (idx : FaiIndex) (chr : string) (start end_ : Z)
    : outcome (option (Z * Z)) :=
  match entries idx !! chr with
  | None => Ret None
  | Some entry =>
      if (FaiEntry.length entry <=? start) || (FaiEntry.length entry <? end_)
         || (end_ <=? start)
      then Ret None
      else
        start_line ← div64 start (FaiEntry.line_bases entry);
        start_offset_in_line ← rem64 start (FaiEntry.line_bases entry);
        let start_file_offset :=
          add64 (add64 (FaiEntry.offset entry)
                       (mul64 start_line (FaiEntry.line_width entry)))
                start_offset_in_line in
        end_line ← div64 end_ (FaiEntry.line_bases entry);
        end_offset_in_line ← rem64 end_ (FaiEntry.line_bases entry);
        let end_file_offset :=
          add64 (add64 (FaiEntry.offset entry)
                       (mul64 end_line (FaiEntry.line_width entry)))
                end_offset_in_line in
        Ret (Some (start_file_offset, end_file_offset))
  end.

(** [FaiIndex::get_tid_offsets] *)
Definition get_tid_offsets (idx : FaiIndex) (tid : string) : option (Z * Z) :=
  entry ← entries idx !! tid;
  Some (FaiEntry.offset entry,
        add64 (FaiEntry.offset entry) (FaiEntry.length entry)).

(** ** parser.rs: [parse_fai_line] over nom combinators *)

Definition tab_char : ascii := "009"%char.
Definition lf_char : ascii := "010"%char.
Definition cr_char : ascii := "013"%char.

(** [take_until("\t")]: the input up to the first tab; an error when there
    is no tab (complete input). *)
Fixpoint take_until_tab (input : string) : option (string * string) :=
  match input with
  | EmptyString => None
  | String c rest =>
      if Ascii.eqb c tab_char then Some (EmptyString, input)
      else match take_until_tab rest with
           | Some (taken, remaining) => Some (String c taken, remaining)
           | None => None
           end
  end.

(** [char('\t')] *)
Definition char_tab (input : string) : option string :=
  match input with
  | String c rest => if Ascii.eqb c tab_char then Some rest else None
  | EmptyString => None
  end.

Definition is_dec_digit (c : ascii) : bool :=
  (48 <=? nat_of_ascii c)%nat && (nat_of_ascii c <=? 57)%nat.

(** The longest prefix of ASCII digits. *)
Fixpoint span_digits (input : string) : string * string :=
  match input with
  | String c rest =>
      if is_dec_digit c then
        let (ds, remaining) := span_digits rest in (String c ds, remaining)
      else (EmptyString, input)
  | EmptyString => (EmptyString, EmptyString)
  end.

Fixpoint digits_value (acc : Z) (ds : string) : Z :=
  match ds with
  | EmptyString => acc
  | String c rest => digits_value (acc * 10 + (Z.of_nat (nat_of_ascii c) - 48)) rest
  end.

(** [parse_u64 = map_res(digit1, str::parse)]: at least one digit, and
    [str::parse::<u64>] fails above [u64::MAX]. *)
Definition parse_u64 (input : string) : option (string * Z) :=
  let (ds, remaining) := span_digits input in
  match ds with
  | EmptyString => None
  | _ => let v := digits_value 0 ds in
         if v <? u64_modulus then Some (remaining, v) else None
  end.

(** [line_ending]: ["\n"] or ["\r\n"]. *)
Definition line_ending (input : string) : option string :=
  match input with
  | String c rest =>
      if Ascii.eqb c lf_char then Some rest
      else if Ascii.eqb c cr_char then
        match rest with
        | String c2 rest2 => if Ascii.eqb c2 lf_char then Some rest2 else None
        | EmptyString => None
        end
      else None
  | EmptyString => None
  end.

(** [parse_fai_line]: [None] stands for nom's [Err]. *)
Definition parse_fai_line (input : string) : option (string * FaiEntry.t) :=
  '(name, input) ← take_until_tab input;
  input ← char_tab input;
  '(input, length) ← parse_u64 input;
  input ← char_tab input;
  '(input, offset) ← parse_u64 input;
  input ← char_tab input;
  '(input, line_bases) ← parse_u64 input;
  input ← char_tab input;
  '(input, line_width) ← parse_u64 input;
  input ← line_ending input;
  Some (input, FaiEntry.mk name length offset line_bases line_width).

(** [FaiIndex::from_reader]: the loop over [lines.next_line().await?]. The
    line stream is the list of what successive [next_line] calls yield: a
    line (without its terminator) or an I/O error; the end of the list is
    [Ok(None)]. *)
Fixpoint from_lines (entries : gmap string FaiEntry.t)
    (lines : list (result string io_error)) : result FaiIndex error :=
  match lines with
  | [] => Ok {| entries := entries |}
  | Err e :: _ => Err (Io e)
  | Ok line :: lines' =>
      match parse_fai_line (line +:+ String lf_char EmptyString) with
      | None => Err ParseError
      | Some (_, entry) =>
          from_lines (<[FaiEntry.name entry := entry]> entries) lines'
      end
  end.

Definition from_reader (lines : list (result string io_error)) : result FaiIndex error :=
  from_lines ∅ lines.

(** ** Readers *)

(** [AsyncRead + AsyncSeek]: [seek(SeekFrom::Start(pos))] and [read_exact]
    of a buffer of [n] bytes, each returning the reader's new state. *)
Class AsyncReadSeek (R : Type) : Type := {
  seek : R -> Z -> R * result unit io_error;
  read_exact : R -> Z -> R * result (list byte) io_error;
}.

(** A file opened with [tokio::fs::File] behind a [BufReader]: its bytes
    and the current position. Seeking past the end succeeds; [read_exact]
    fails with [UnexpectedEof] when fewer than [n] bytes remain. The model
    covers positions below [2^63] (a larger [SeekFrom::Start] fails with
    [EINVAL]) and, past the end of the file, reads of at least one byte
    (tokio's [read_exact] of an empty buffer succeeds anywhere). *)
Record FileReader : Type := { fr_data : list byte; fr_pos : Z }.

Definition file_len (data : list byte) : Z := Z.of_nat (List.length data).

Global Instance file_reader_io : AsyncReadSeek FileReader := {
  seek r pos := ({| fr_data := fr_data r; fr_pos := pos |}, Ok tt);
  read_exact r n :=
    if fr_pos r + n <=? file_len (fr_data r)
    then ({| fr_data := fr_data r; fr_pos := fr_pos r + n |},
          Ok (firstn (Z.to_nat n) (skipn (Z.to_nat (fr_pos r)) (fr_data r))))
    else ({| fr_data := fr_data r; fr_pos := Z.max (fr_pos r) (file_len (fr_data r)) |},
          Err UnexpectedEof);
}.

(** ** Decoding: [filter(|&b| b != b'\n' && b != b'\r').map(|b| b as char)] *)

Definition is_term (b : byte) : bool := Byte.eqb b x0a || Byte.eqb b x0d.

Definition decode (buf : list byte) : list byte :=
  List.filter (fun b => negb (is_term b)) buf.

(** ** contig.rs *)

(** A Rust [String] whose chars are [b as char]: UTF-8 takes one byte for
    a code point below 0x80 and two bytes otherwise. *)
Definition utf8_width (c : byte) : Z :=
  if (Byte.to_nat c <? 128)%nat then 1 else 2.

Fixpoint utf8_len (s : list byte) : Z :=
  match s with [] => 0 | c :: s' => utf8_width c + utf8_len s' end.

(** The char index at byte index [a], if [a] is a char boundary. *)
Fixpoint char_boundary (s : list byte) (a : Z) : option nat :=
  if a =? 0 then Some 0%nat
  else match s with
       | [] => None
       | c :: s' =>
           if a <? utf8_width c then None
           else option_map S (char_boundary s' (a - utf8_width c))
       end.

(** [str::get(a..b)] *)
Definition str_get (s : list byte) (a b : Z) : option (list byte) :=
  match char_boundary s a, char_boundary s b with
  | Some i, Some j =>
      if (i <=? j)%nat then Some (firstn (j - i) (skipn i s)) else None
  | _, _ => None
  end.

Record MemoryContig : Type := { sequence : list byte }.

(** [<MemoryContig as Source>::sequence] *)
Definition memory_sequence (m : MemoryContig) : option (list byte) :=
  Some (sequence m).

(** [<MemoryContig as Source>::read_region] *)
Definition memory_read_region (m : MemoryContig) (start end_ : Z)
    : option (list byte) :=
  if (utf8_len (sequence m) <? end_) || (end_ <? start) then None
  else str_get (sequence m) start end_.

(** [FileContig<R>]: its [reader] is the shared reader, passed as state. *)
Record FileContig : Type := { fc_tid : string; fc_index : option FaiIndex }.

Inductive Source : Type :=
| SrcMemory (m : MemoryContig)
| SrcFile (f : FileContig).

Record Contig : Type := { tid : string; source : Source }.

(** [Fasta<R>] *)
Record Fasta (R : Type) : Type := { reader : R; index : option FaiIndex }.
Arguments reader {R} f.
Arguments index {R} f.

Definition with_reader {R} (f : Fasta R) (r : R) : Fasta R :=
  {| reader := r; index := index f |}.

Section Reads.
Context {R : Type} `{AsyncReadSeek R}.

(** [<FileContig<R> as Source>::sequence]: every failure becomes [None].
    The buffer allocation, which panics above [isize::MAX] bytes, is left
    out here and in the other reads below. *)
Definition file_sequence (fc : FileContig) (r : R) : R * option (list byte) :=
  match fc_index fc with
  | None => (r, None)
  | Some idx =>
      match get_tid_offsets idx (fc_tid fc) with
      | None => (r, None)
      | Some (file_start, file_end) =>
          let '(r1, sr) := seek r file_start in
          match sr with
          | Err _ => (r1, None)
          | Ok _ =>
              let '(r2, rr) := read_exact r1 (sub64 file_end file_start) in
              match rr with
              | Err _ => (r2, None)
              | Ok buf => (r2, Some (decode buf))
              end
          end
      end
  end.

(** [<FileContig<R> as Source>::read_region] *)
Definition file_read_region (fc : FileContig) (r : R) (start end_ : Z)
    : outcome (R * option (list byte)) :=
  match fc_index fc with
  | None => Ret (r, None)
  | Some idx =>
      offs ← get_region_offsets idx (fc_tid fc) start end_;
      match offs with
      | None => Ret (r, None)
      | Some (file_start, file_end) =>
          let '(r1, sr) := seek r file_start in
          match sr with
          | Err _ => Ret (r1, None)
          | Ok _ =>
              let '(r2, rr) := read_exact r1 (sub64 file_end file_start) in
              match rr with
              | Err _ => Ret (r2, None)
              | Ok buf => Ret (r2, Some (decode buf))
              end
          end
      end
  end.

(** [Contig::sequence] and [Contig::read_region] forward to the source. *)
Definition contig_sequence (c : Contig) (r : R) : R * option (list byte) :=
  match source c with
  | SrcMemory m => (r, memory_sequence m)
  | SrcFile fc => file_sequence fc r
  end.

Definition contig_read_region (c : Contig) (r : R) (start end_ : Z)
    : outcome (R * option (list byte)) :=
  match source c with
  | SrcMemory m => Ret (r, memory_read_region m start end_)
  | SrcFile fc => file_read_region fc r start end_
  end.

(** [Fasta::read_region]. The buffer [vec![0u8; (file_end - file_start) as usize]]
    is not modelled: it panics when the count exceeds [isize::MAX], and the
    model passes the count to [read_exact] instead. *)
Definition fasta_read_region (f : Fasta R) (tid : string) (start end_ : Z)
    : outcome (Fasta R * result (list byte) error) :=
  match index f with
  | None => Ret (f, Err NoFAIDX)
  | Some idx =>
      offs ← get_region_offsets idx tid start end_;
      match offs with
      | None => Ret (f, Err InvalidRegion)
      | Some (file_start, file_end) =>
          let '(r1, sr) := seek (reader f) file_start in
          match sr with
          | Err e => Ret (with_reader f r1, Err (Io e))
          | Ok _ =>
              let '(r2, rr) := read_exact r1 (sub64 file_end file_start) in
              match rr with
              | Err e => Ret (with_reader f r2, Err (Io e))
              | Ok buf => Ret (with_reader f r2, Ok (decode buf))
              end
          end
      end
  end.

(** [Fasta::read_mmap_tid], with the same buffer allocation left out as
    in [fasta_read_region]. *)
Definition read_mmap_tid (f : Fasta R) (tid : string) : Fasta R * result Contig error :=
  match index f with
  | None => (f, Err NoFAIDX)
  | Some idx =>
      match get_tid_offsets idx tid with
      | None => (f, Err InvalidRegion)
      | Some (file_start, file_end) =>
          let '(r1, sr) := seek (reader f) file_start in
          match sr with
          | Err e => (with_reader f r1, Err (Io e))
          | Ok _ =>
              let '(r2, rr) := read_exact r1 (sub64 file_end file_start) in
              match rr with
              | Err e => (with_reader f r2, Err (Io e))
              | Ok buf =>
                  (with_reader f r2,
                   Ok {| tid := tid; source := SrcMemory {| sequence := decode buf |} |})
              end
          end
      end
  end.

(** [Fasta::read_io_tid] *)
Definition read_io_tid (f : Fasta R) (tid : string) : Fasta R * result Contig error :=
  (f, Ok {| tid := tid;
            source := SrcFile {| fc_tid := tid; fc_index := index f |} |}).

End Reads.

(** ** Concrete inputs: the fixtures of the crate's tests *)

Definition nl : string := String lf_char EmptyString.

(** A tab-separated index line, without its terminator. *)
Definition fai_line (fields : list string) : string :=
  String.concat (String tab_char EmptyString) fields.

(** [create_test_fasta_and_fai]: [>chr1\nACGTACGTACGT\n] and
    [chr1\t12\t6\t12\t13\n]. *)
Definition test_fasta : list byte :=
  list_byte_of_string (">chr1" +:+ nl +:+ "ACGTACGTACGT" +:+ nl).

Definition test_fai_lines : list (result string io_error) :=
  [Ok (fai_line ["chr1"; "12"; "6"; "12"; "13"])].

Definition test_index : FaiIndex :=
  match from_reader test_fai_lines with Ok idx => idx | Err _ => {| entries := ∅ |} end.

Definition test_open (idx : option FaiIndex) (data : list byte) : Fasta FileReader :=
  {| reader := {| fr_data := data; fr_pos := 0 |}; index := idx |}.

(** A two-line contig of 16 bases: [>chr1\nACGTACGTACGT\nACGT\n] indexed by
    [chr1\t16\t6\t12\t13]. *)
Definition wrapped_fasta : list byte :=
  list_byte_of_string (">chr1" +:+ nl +:+ "ACGTACGTACGT" +:+ nl +:+ "ACGT" +:+ nl).

Definition wrapped_fai_lines : list (result string io_error) :=
  [Ok (fai_line ["chr1"; "16"; "6"; "12"; "13"])].

Definition wrapped_index : FaiIndex :=
  match from_reader wrapped_fai_lines with Ok idx => idx | Err _ => {| entries := ∅ |} end.

Definition out (s : string) : list byte := list_byte_of_string s.

Definition result_value {A E} (r : result A E) : option A :=
  match r with Ok a => Some a | Err _ => None end.

Definition outcome_value {A} (o : outcome A) : option A :=
  match o with Ret a => Some a | Panic => None end.

(** The crate's test file without its final newline: reading the whole
    line runs past the end of the file. *)
Definition truncated_fasta : list byte :=
  list_byte_of_string (">chr1" +:+ nl +:+ "ACGTACGTACGT").

(** The contigs [read_mmap_tid] and [read_io_tid] build from the same
    index and file. *)
Definition eager_contig (f : Fasta FileReader) (tid : string) : option Contig :=
  result_value (snd (read_mmap_tid f tid)).

Definition lazy_contig (f : Fasta FileReader) (tid : string) : option Contig :=
  result_value (snd (read_io_tid f tid)).

Definition contig_region (c : option Contig) (r : FileReader) (start end_ : Z)
    : option (option (list byte)) :=
  match c with
  | Some c => option_map snd (outcome_value (contig_read_region c r start end_))
  | None => None
  end.

(** An index line with [line_bases = 0] and [line_width = 0]. *)
Definition zero_bases_lines : list (result string io_error) :=
  [Ok (fai_line ["chr1"; "12"; "6"; "0"; "0"])].

Definition zero_bases_index : FaiIndex :=
  match from_reader zero_bases_lines with Ok idx => idx | Err _ => {| entries := ∅ |} end.

(** An index naming [chr1] twice, then [chr2]. *)
Definition duplicate_lines : list string :=
  [fai_line ["chr1"; "12"; "6"; "12"; "13"]; fai_line ["chr2"; "4"; "25"; "4"; "5"];
   fai_line ["chr1"; "16"; "6"; "12"; "13"]].

Definition duplicate_entries : list FaiEntry.t :=
  [FaiEntry.mk "chr1" 12 6 12 13; FaiEntry.mk "chr2" 4 25 4 5; FaiEntry.mk "chr1" 16 6 12 13].

(** ** The fixed-width layout an index entry describes *)

(** The fields of an entry are [u64] values. *)
Definition entry_u64 (e : FaiEntry.t) : Prop :=
  is_u64 (FaiEntry.length e) ∧ is_u64 (FaiEntry.offset e) ∧
  is_u64 (FaiEntry.line_bases e) ∧ is_u64 (FaiEntry.line_width e).

(** The grid position of base [i]: [offset + (i / line_bases) * line_width
    + i % line_bases], computed without wrap-around. *)
Definition base_pos (e : FaiEntry.t) (i : Z) : Z :=
  FaiEntry.offset e + (i / FaiEntry.line_bases e) * FaiEntry.line_width e
  + i mod FaiEntry.line_bases e.

Definition byte_at (data : list byte) (pos : Z) : option byte :=
  data !! Z.to_nat pos.

(** The file holds the contig in the layout the entry describes: each of
    its [length] bases sits at [base_pos] and is not a terminator byte, and
    each full line of [line_bases] bases is followed by
    [line_width - line_bases] terminator bytes. *)
Definition layoutb (data : list byte) (e : FaiEntry.t) : bool :=
  forallb (fun i => match byte_at data (base_pos e (Z.of_nat i)) with
                    | Some b => negb (is_term b)
                    | None => false
                    end)
          (seq 0 (Z.to_nat (FaiEntry.length e)))
  && forallb (fun k =>
       forallb (fun j =>
         match byte_at data (FaiEntry.offset e + Z.of_nat k * FaiEntry.line_width e
                             + Z.of_nat j) with
         | Some b => is_term b
         | None => false
         end)
         (seq (Z.to_nat (FaiEntry.line_bases e))
              (Z.to_nat (FaiEntry.line_width e - FaiEntry.line_bases e))))
     (seq 0 (Z.to_nat (FaiEntry.length e / FaiEntry.line_bases e))).

Fixpoint zrange (a : Z) (n : nat) : list Z :=
  match n with O => [] | S n' => a :: zrange (a + 1) n' end.

Definition base_at (data : list byte) (e : FaiEntry.t) (i : Z) : byte :=
  default x00 (byte_at data (base_pos e i)).

(** The decoded contig: its bases in order. *)
Definition contig_bases (data : list byte) (e : FaiEntry.t) : list byte :=
  map (base_at data e) (zrange 0 (Z.to_nat (FaiEntry.length e))).

Definition is_ascii_bytes (s : list byte) : bool :=
  forallb (fun b => (Byte.to_nat b <? 128)%nat) s.

(** [n] bytes of [data] from [pos]. *)
Definition zslice (data : list byte) (pos n : Z) : list byte :=
  take (Z.to_nat n) (drop (Z.to_nat pos) data).

(** The entry of the last line named [n] in a sequence of entries. *)
Definition last_entry (n : string) (es : list FaiEntry.t) : option FaiEntry.t :=
  fold_left (fun acc e => if String.eqb (FaiEntry.name e) n then Some e else acc) es None.

(** ** fasta.rs: the rest of the facade *)

(** [Fasta::from_reader]: when a reader for the index is given, the index
    is loaded first and its error returned as is ([?]). *)
Definition fasta_from_reader {R : Type} (r : R)
    (fai_reader : option (list (result string io_error))) : result (Fasta R) error :=
  match fai_reader with
  | Some lines =>
      match from_reader lines with
      | Ok idx => Ok {| reader := r; index := Some idx |}
      | Err e => Err e
      end
  | None => Ok {| reader := r; index := None |}
  end.

(** [Fasta::tid_lengths]: the pairs come in the map's iteration order. *)
Definition tid_lengths {R : Type} (f : Fasta R) : result (list (string * Z)) error :=
  match index f with
  | None => Err NoFAIDX
  | Some idx =>
      Ok ((fun '(tid, e) => (tid, FaiEntry.length e)) <$> map_to_list (entries idx))
  end.

(** [index.entries.keys().cloned().collect()] *)
Definition index_tids (idx : FaiIndex) : list string := (map_to_list (entries idx)).*1.

Section ReadAll.
Context {R : Type} `{AsyncReadSeek R}.

(** The loop of [read_all_mmap] and [read_all_io]: [read(&tid).await?],
    then [results.insert(tid.into(), contig)]. *)
Fixpoint read_all_loop (read : Fasta R -> string -> Fasta R * result Contig error)
    (f : Fasta R) (tids : list string) (results : gmap string Contig)
    : Fasta R * result (gmap string Contig) error :=
  match tids with
  | [] => (f, Ok results)
  | tid :: tids' =>
      let '(f1, r) := read f tid in
      match r with
      | Err e => (f1, Err e)
      | Ok contig => read_all_loop read f1 tids' (<[tid := contig]> results)
      end
  end.

(** [Fasta::read_all_mmap] *)
Definition read_all_mmap (f : Fasta R) : Fasta R * result (gmap string Contig) error :=
  match index f with
  | None => (f, Err NoFAIDX)
  | Some idx => read_all_loop read_mmap_tid f (index_tids idx) ∅
  end.

(** [Fasta::read_all_io] *)
Definition read_all_io (f : Fasta R) : Fasta R * result (gmap string Contig) error :=
  match index f with
  | None => (f, Err NoFAIDX)
  | Some idx => read_all_loop read_io_tid f (index_tids idx) ∅
  end.

End ReadAll.

(** ** [ReverseComplement] for [String] and [&str]

    The two impls have the same body. A Rust [String] is here the list of
    the code points of its chars. *)
Definition complement_char (c : Z) : Z :=
  if (c =? 65) || (c =? 97) then 84
  else if (c =? 84) || (c =? 116) then 65
  else if (c =? 67) || (c =? 99) then 71
  else if (c =? 71) || (c =? 103) then 67
  else if (c =? 78) || (c =? 110) then 78
  else 78.

Definition reverse_complement (s : list Z) : list Z := complement_char <$> reverse s.

(** ** Statements about the rest of the code *)

(** The upper-case base a char stands for: [A], [C], [G], [T], or [N]
    for anything else. *)
Definition canonical_base (c : Z) : Z :=
  if (c =? 65) || (c =? 97) then 65
  else if (c =? 67) || (c =? 99) then 67
  else if (c =? 71) || (c =? 103) then 71
  else if (c =? 84) || (c =? 116) then 84
  else 78.

Definition is_nucleotide (c : Z) : bool :=
  (c =? 65) || (c =? 67) || (c =? 71) || (c =? 84) || (c =? 78).

Definition codes (s : string) : list Z :=
  map (fun c => Z.of_nat (nat_of_ascii c)) (list_ascii_of_string s).

(** The decimal text of a number (Rust's [Display] for [u64]). *)
Definition digit_char (d : Z) : ascii := ascii_of_nat (48 + Z.to_nat d).

Fixpoint dec_string_aux (fuel : nat) (n : Z) (acc : string) : string :=
  match fuel with
  | O => acc
  | S fuel' =>
      let acc' := String (digit_char (n mod 10)) acc in
      if n <? 10 then acc' else dec_string_aux fuel' (n / 10) acc'
  end.

Definition dec_string (n : Z) : string :=
  dec_string_aux (S (Z.to_nat (Z.log2 n))) n EmptyString.

(** The index line of an entry, as [samtools faidx] writes it, without its
    terminator. *)
Definition render_fai_line (e : FaiEntry.t) : string :=
  fai_line [FaiEntry.name e; dec_string (FaiEntry.length e); dec_string (FaiEntry.offset e);
            dec_string (FaiEntry.line_bases e); dec_string (FaiEntry.line_width e)].

Definition has_tab (s : string) : bool :=
  existsb (fun c => Ascii.eqb c tab_char) (list_ascii_of_string s).

Definition tab : string := String tab_char EmptyString.

(** The reader of an index, given as the lines it yields. *)
Definition fai_lines_of (es : list FaiEntry.t) : list (result string io_error) :=
  map (fun e => Ok (render_fai_line e)) es.

(** The contig [read_mmap_tid] builds from the whole-contig byte range of
    an entry. *)
Definition memory_contig_of (data : list byte) (tid : string) (e : FaiEntry.t) : Contig :=
  {| tid := tid;
     source := SrcMemory {| sequence := decode (zslice data (FaiEntry.offset e)
                                                      (FaiEntry.length e)) |} |}.

(** The contig [read_io_tid] builds. *)
Definition file_contig_of (idx : option FaiIndex) (tid : string) : Contig :=
  {| tid := tid; source := SrcFile {| fc_tid := tid; fc_index := idx |} |}.

(** An index with two contigs, the second lying past the end of
    [test_fasta]. *)
Definition two_contig_index : FaiIndex :=
  {| entries := <["chr2" := FaiEntry.mk "chr2" 8 30 8 9]>
                  (<["chr1" := FaiEntry.mk "chr1" 12 6 12 13]> ∅) |}.

(** An index entry an index file can hold: a name without a tab and four
    fields that fit in [u64]. *)
Definition fai_entry_ok (e : FaiEntry.t) : Prop :=
  has_tab (FaiEntry.name e) = false /\ is_u64 (FaiEntry.length e) /\
  is_u64 (FaiEntry.offset e) /\ is_u64 (FaiEntry.line_bases e) /\
  is_u64 (FaiEntry.line_width e).

Definition entry_pairs (es : list FaiEntry.t) : list (string * FaiEntry.t) :=
  (fun e => (FaiEntry.name e, e)) <$> es.

(** Index entries written to an index file, [chr1] twice. *)
Definition rewritten_entries : list FaiEntry.t :=
  [FaiEntry.mk "chr1" 12 6 12 13; FaiEntry.mk "chr2" 8 30 8 9; FaiEntry.mk "chr1" 5 0 5 6].

(** * Lemmas *)

(** ** Wrap-around *)

Lemma wrap64_small x : 0 <= x < u64_modulus -> wrap64 x = x.
Proof. intros Hx. unfold wrap64. apply Z.mod_small. exact Hx. Qed.

Lemma wrap64_offset a b c :
  wrap64 (wrap64 (a + wrap64 b) + c) = wrap64 (a + b + c).
Proof.
  unfold wrap64. rewrite Zplus_mod_idemp_l.
  replace (a + b mod u64_modulus + c) with (a + c + b mod u64_modulus) by ring.
  rewrite Zplus_mod_idemp_r. f_equal. ring.
Qed.

Lemma get_region_offsets_spec (idx : FaiIndex) (chr : string) (entry : FaiEntry.t)
    (start end_ : Z) :
  entries idx !! chr = Some entry ->
  FaiEntry.line_bases entry <> 0 ->
  start < FaiEntry.length entry -> end_ <= FaiEntry.length entry -> start < end_ ->
  get_region_offsets idx chr start end_
  = Ret (Some (wrap64 (base_pos entry start), wrap64 (base_pos entry end_))).
Proof.
  intros Hlook Hlb Hs He Hse. unfold get_region_offsets. rewrite Hlook.
  replace ((FaiEntry.length entry <=? start) || (FaiEntry.length entry <? end_)
           || (end_ <=? start)) with false
    by (symmetry; repeat apply orb_false_intro; apply Z.leb_gt || apply Z.ltb_ge; lia).
  unfold div64, rem64. apply Z.eqb_neq in Hlb. rewrite Hlb. cbn.
  unfold add64, mul64, base_pos. rewrite !wrap64_offset. reflexivity.
Qed.

Lemma get_region_offsets_none_iff (idx : FaiIndex) (chr : string) (start end_ : Z) :
  get_region_offsets idx chr start end_ = Ret None <->
  entries idx !! chr = None \/
  (exists entry, entries idx !! chr = Some entry /\
     (FaiEntry.length entry <= start \/ FaiEntry.length entry < end_ \/ end_ <= start)).
Proof.
  unfold get_region_offsets. destruct (entries idx !! chr) as [entry|] eqn:Hlook.
  - destruct ((FaiEntry.length entry <=? start) || (FaiEntry.length entry <? end_)
              || (end_ <=? start)) eqn:Hb.
    + split; [intros _ | reflexivity]. right. exists entry. split; [reflexivity|].
      apply orb_true_iff in Hb as [Hb|Hb]; [apply orb_true_iff in Hb as [Hb|Hb]|];
        [apply Z.leb_le in Hb | apply Z.ltb_lt in Hb | apply Z.leb_le in Hb]; lia.
    + split.
      * unfold div64, rem64. destruct (FaiEntry.line_bases entry =? 0); cbn; discriminate.
      * intros [Hn|[entry' [Heq Hc]]]; [discriminate|]. injection Heq as <-.
        apply orb_false_iff in Hb as [Hb Hb3]. apply orb_false_iff in Hb as [Hb1 Hb2].
        apply Z.leb_gt in Hb1. apply Z.ltb_ge in Hb2. apply Z.leb_gt in Hb3. lia.
  - split; [intros _; left; reflexivity | reflexivity].
Qed.

(** ** Slices and decoding *)

Lemma zslice_app (data : list byte) (p n m : Z) :
  0 <= p -> 0 <= n -> 0 <= m ->
  zslice data p (n + m) = zslice data p n ++ zslice data (p + n) m.
Proof.
  intros Hp Hn Hm. unfold zslice.
  rewrite (Z2Nat.inj_add n m) by lia. rewrite <- take_take_drop.
  rewrite drop_drop, <- (Z2Nat.inj_add p n) by lia. reflexivity.
Qed.

Lemma zslice_one (data : list byte) (p : Z) (b : byte) :
  byte_at data p = Some b -> zslice data p 1 = [b].
Proof. intros Hb. unfold zslice. rewrite (drop_S _ _ _ Hb). reflexivity. Qed.

Lemma zslice_zero (data : list byte) (p : Z) : zslice data p 0 = [].
Proof. reflexivity. Qed.

Lemma zslice_length (data : list byte) (p n : Z) :
  (List.length (zslice data p n) <= Z.to_nat n)%nat.
Proof. unfold zslice. apply firstn_le_length. Qed.

Lemma byte_at_lt (data : list byte) (p : Z) (b : byte) :
  0 <= p -> byte_at data p = Some b -> p < file_len data.
Proof.
  intros Hp Hb. apply lookup_lt_Some in Hb. unfold file_len. lia.
Qed.

Lemma decode_app (a b : list byte) : decode (a ++ b) = decode a ++ decode b.
Proof. apply List.filter_app. Qed.

Lemma decode_base (b : byte) : is_term b = false -> decode [b] = [b].
Proof. intros Hb. unfold decode. cbn. rewrite Hb. reflexivity. Qed.

Lemma decode_term (b : byte) : is_term b = true -> decode [b] = [].
Proof. intros Hb. unfold decode. cbn. rewrite Hb. reflexivity. Qed.

Lemma decode_length (buf : list byte) : (List.length (decode buf) <= List.length buf)%nat.
Proof.
  induction buf as [|b buf IH]; [reflexivity|].
  unfold decode in *. cbn. destruct (negb (is_term b)); cbn; lia.
Qed.

Lemma decode_no_term (buf : list byte) :
  forallb (fun b => negb (is_term b)) (decode buf) = true.
Proof. apply forallb_forall. intros b Hb. apply filter_In in Hb. apply Hb. Qed.

(** A run of terminator bytes decodes to nothing. *)
Lemma decode_term_run (data : list byte) (p : Z) (n : nat) :
  0 <= p ->
  (forall t, 0 <= t < Z.of_nat n ->
     exists b, byte_at data (p + t) = Some b /\ is_term b = true) ->
  decode (zslice data p (Z.of_nat n)) = [] /\
  (p <= file_len data -> p + Z.of_nat n <= file_len data).
Proof.
  revert p. induction n as [|n IH]; intros p Hp Hrun.
  - split; [reflexivity | lia].
  - destruct (Hrun 0) as [b [Hb Ht]]; [lia|]. rewrite Z.add_0_r in Hb.
    destruct (IH (p + 1)) as [IHd IHl]; [lia| |].
    { intros t Ht'. destruct (Hrun (1 + t)) as [b' Hb']; [lia|].
      exists b'. rewrite Z.add_assoc in Hb'. exact Hb'. }
    replace (Z.of_nat (S n)) with (1 + Z.of_nat n) by lia.
    rewrite zslice_app by lia. rewrite decode_app, (zslice_one _ _ _ Hb), decode_term by exact Ht.
    split; [exact IHd|].
    intros _. pose proof (byte_at_lt _ _ _ Hp Hb). lia.
Qed.

(** ** Ranges *)

Lemma zrange_length (a : Z) (n : nat) : List.length (zrange a n) = n.
Proof. revert a. induction n; intros a; cbn; [reflexivity | rewrite IHn; reflexivity]. Qed.

Lemma zrange_drop (a : Z) (n k : nat) :
  drop k (zrange a n) = zrange (a + Z.of_nat k) (n - k).
Proof.
  revert a k. induction n as [|n IH]; intros a k.
  - destruct k; reflexivity.
  - destruct k as [|k]; cbn.
    + rewrite Z.add_0_r. reflexivity.
    + rewrite IH. f_equal. lia.
Qed.

Lemma zrange_take (a : Z) (n k : nat) :
  take k (zrange a n) = zrange a (Nat.min k n).
Proof.
  revert a k. induction n as [|n IH]; intros a k.
  - destruct k; reflexivity.
  - destruct k as [|k]; cbn; [reflexivity|]. rewrite IH. reflexivity.
Qed.

(** ** Reading a region of a file laid out as the entry says *)

Section Layout.
Variable data : list byte.
Variable e : FaiEntry.t.
Hypothesis Hlb : 1 <= FaiEntry.line_bases e.
Hypothesis Hlw : FaiEntry.line_bases e <= FaiEntry.line_width e.
Hypothesis Hoff : 0 <= FaiEntry.offset e.
Hypothesis Hlay : layoutb data e = true.

Let lb := FaiEntry.line_bases e.
Let lw := FaiEntry.line_width e.
Let len := FaiEntry.length e.

(** Moving from base [i] to base [i + 1] either stays on the line or moves
    to the first column of the next one. *)
Lemma succ_div_mod (i : Z) :
  0 <= i ->
  (i mod lb + 1 = lb /\ (i + 1) / lb = i / lb + 1 /\ (i + 1) mod lb = 0) \/
  (i mod lb + 1 < lb /\ (i + 1) / lb = i / lb /\ (i + 1) mod lb = i mod lb + 1).
Proof.
  intros Hi. pose proof (Z.div_mod i lb ltac:(unfold lb; lia)) as Hdm.
  pose proof (Z.mod_pos_bound i lb ltac:(unfold lb; lia)) as Hb.
  destruct (Z.eq_dec (i mod lb + 1) lb) as [Heq|Hne].
  - left. split; [exact Heq|]. split.
    + symmetry. apply (Z.div_unique_pos _ _ _ 0); lia.
    + symmetry. apply (Z.mod_unique_pos _ _ (i / lb + 1)); lia.
  - right. split; [lia|]. split.
    + symmetry. apply (Z.div_unique_pos _ _ _ (i mod lb + 1)); lia.
    + symmetry. apply (Z.mod_unique_pos _ _ (i / lb)); lia.
Qed.

Lemma base_pos_step (i : Z) :
  0 <= i ->
  base_pos e (i + 1) = base_pos e i + 1 + (if (i + 1) mod lb =? 0 then lw - lb else 0).
Proof.
  intros Hi. unfold base_pos. fold lb lw.
  destruct (succ_div_mod i Hi) as [[H1 [H2 H3]]|[H1 [H2 H3]]];
    rewrite H2, H3; cbn [Z.eqb].
  - nia.
  - replace (i mod lb + 1 =? 0) with false by (symmetry; apply Z.eqb_neq;
      pose proof (Z.mod_pos_bound i lb ltac:(unfold lb; lia)); lia). lia.
Qed.

Lemma base_pos_nonneg (i : Z) : 0 <= i -> 0 <= base_pos e i.
Proof.
  intros Hi. unfold base_pos. fold lb lw.
  pose proof (Z.div_pos i lb Hi ltac:(unfold lb; lia)).
  pose proof (Z.mod_pos_bound i lb ltac:(unfold lb; lia)). nia.
Qed.

Lemma base_pos_mono (i : Z) (d : nat) :
  0 <= i -> base_pos e i + Z.of_nat d <= base_pos e (i + Z.of_nat d).
Proof.
  intros Hi. induction d as [|d IH].
  - rewrite !Z.add_0_r. lia.
  - replace (i + Z.of_nat (S d)) with ((i + Z.of_nat d) + 1) by lia.
    rewrite base_pos_step by lia.
    destruct (_ =? 0); unfold lw, lb in *; lia.
Qed.

Lemma layout_base (i : Z) :
  0 <= i < len ->
  exists b, byte_at data (base_pos e i) = Some b /\ is_term b = false.
Proof.
  intros Hi. apply andb_prop in Hlay as [Hbases _].
  rewrite forallb_forall in Hbases.
  specialize (Hbases (Z.to_nat i) ltac:(apply in_seq; unfold len in Hi; lia)).
  rewrite Z2Nat.id in Hbases by lia.
  destruct (byte_at data (base_pos e i)) as [b|]; [|discriminate].
  exists b. split; [reflexivity|]. apply negb_true_iff. exact Hbases.
Qed.

Lemma layout_term (k j : Z) :
  0 <= k -> (k + 1) * lb <= len -> lb <= j < lw ->
  exists b, byte_at data (FaiEntry.offset e + k * lw + j) = Some b /\ is_term b = true.
Proof.
  intros Hk Hline Hj. apply andb_prop in Hlay as [_ Hterms].
  rewrite forallb_forall in Hterms.
  assert (Hq : k + 1 <= len / lb) by (apply Zdiv_le_lower_bound; unfold lb in *; lia).
  specialize (Hterms (Z.to_nat k) ltac:(apply in_seq; unfold len, lb in Hq; lia)).
  rewrite forallb_forall in Hterms.
  specialize (Hterms (Z.to_nat j) ltac:(apply in_seq; unfold lb, lw in *; lia)).
  rewrite !Z2Nat.id in Hterms by lia.
  destruct (byte_at data _) as [b|]; [|discriminate].
  exists b. split; [reflexivity | exact Hterms].
Qed.

(** The bytes from base [i] up to base [i + 1]: the base itself, then the
    line's terminators if [i] ends a line. *)
Lemma decode_piece (i : Z) :
  0 <= i < len ->
  decode (zslice data (base_pos e i) (base_pos e (i + 1) - base_pos e i))
  = [base_at data e i] /\ base_pos e (i + 1) <= file_len data.
Proof.
  intros Hi. destruct (layout_base i Hi) as [b [Hb Ht]].
  assert (Hbase : base_at data e i = b) by (unfold base_at; rewrite Hb; reflexivity).
  rewrite Hbase. pose proof (base_pos_nonneg i ltac:(lia)) as Hp.
  pose proof (byte_at_lt _ _ _ Hp Hb) as Hlt.
  rewrite base_pos_step by lia.
  destruct ((i + 1) mod lb =? 0) eqn:Hend.
  - apply Z.eqb_eq in Hend.
    pose proof (Z.mod_pos_bound i lb ltac:(unfold lb; lia)).
    destruct (succ_div_mod i ltac:(lia)) as [[H1 [H2 H3]]|[H1 [H2 H3]]]; [|lia].
    destruct (decode_term_run data (base_pos e i + 1) (Z.to_nat (lw - lb)))
      as [Hrun Hrunl]; [lia| |].
    { intros t Ht'. rewrite Z2Nat.id in Ht' by (unfold lw, lb; lia).
      destruct (layout_term (i / lb) (lb + t)) as [b' Hb'].
      - apply Z.div_pos; unfold lb; lia.
      - pose proof (Z.div_mod i lb ltac:(unfold lb; lia)). nia.
      - unfold lw, lb in *; lia.
      - exists b'. unfold base_pos. fold lb lw.
        replace (FaiEntry.offset e + i / lb * lw + i mod lb + 1 + t)
          with (FaiEntry.offset e + i / lb * lw + (lb + t)) by lia. exact Hb'. }
    rewrite Z2Nat.id in Hrun, Hrunl by (unfold lw, lb; lia).
    replace (base_pos e i + 1 + (lw - lb) - base_pos e i) with (1 + (lw - lb)) by lia.
    rewrite zslice_app by (unfold lw, lb in *; lia).
    rewrite decode_app, (zslice_one _ _ _ Hb), decode_base by exact Ht.
    rewrite Hrun. split; [reflexivity|]. lia.
  - replace (base_pos e i + 1 + 0 - base_pos e i) with 1 by lia.
    rewrite (zslice_one _ _ _ Hb), decode_base by exact Ht. split; [reflexivity | lia].
Qed.

(** The bytes from base [start] up to base [start + d] decode to the [d]
    bases in between. *)
Lemma decode_span (start : Z) (d : nat) :
  0 <= start -> start + Z.of_nat d <= len ->
  decode (zslice data (base_pos e start) (base_pos e (start + Z.of_nat d) - base_pos e start))
  = map (base_at data e) (zrange start d) /\
  ((0 < d)%nat -> base_pos e (start + Z.of_nat d) <= file_len data).
Proof.
  revert start. induction d as [|d IH]; intros start Hs Hd.
  - rewrite Z.add_0_r, Z.sub_diag. split; [reflexivity | lia].
  - destruct (decode_piece start ltac:(lia)) as [Hpiece Hpl].
    destruct (IH (start + 1) ltac:(lia) ltac:(lia)) as [IHd IHl].
    pose proof (base_pos_mono start 1 Hs) as Hm1. change (Z.of_nat 1) with 1 in Hm1.
    pose proof (base_pos_mono (start + 1) d ltac:(lia)) as Hmd.
    pose proof (base_pos_nonneg start Hs).
    replace (start + Z.of_nat (S d)) with (start + 1 + Z.of_nat d) by lia.
    replace (base_pos e (start + 1 + Z.of_nat d) - base_pos e start)
      with ((base_pos e (start + 1) - base_pos e start)
            + (base_pos e (start + 1 + Z.of_nat d) - base_pos e (start + 1))) by lia.
    rewrite zslice_app by lia.
    replace (base_pos e start + (base_pos e (start + 1) - base_pos e start))
      with (base_pos e (start + 1)) by lia.
    rewrite decode_app, Hpiece, IHd. split; [reflexivity|].
    intros _. destruct d as [|d']; [rewrite Z.add_0_r; exact Hpl | apply IHl; lia].
Qed.

End Layout.

(** ** Translation followed by a file read *)

Lemma region_read (idx : FaiIndex) (chr : string) (entry : FaiEntry.t) (data : list byte)
    (start end_ : Z) :
  entries idx !! chr = Some entry -> entry_u64 entry ->
  1 <= FaiEntry.line_bases entry -> FaiEntry.line_bases entry <= FaiEntry.line_width entry ->
  layoutb data entry = true -> file_len data < u64_modulus ->
  0 <= start -> start < end_ -> end_ <= FaiEntry.length entry ->
  get_region_offsets idx chr start end_
    = Ret (Some (base_pos entry start, base_pos entry end_)) /\
  base_pos entry start < base_pos entry end_ /\
  read_exact {| fr_data := data; fr_pos := base_pos entry start |}
             (sub64 (base_pos entry end_) (base_pos entry start))
  = ({| fr_data := data; fr_pos := base_pos entry end_ |},
     Ok (zslice data (base_pos entry start) (base_pos entry end_ - base_pos entry start))) /\
  decode (zslice data (base_pos entry start) (base_pos entry end_ - base_pos entry start))
  = map (base_at data entry) (zrange start (Z.to_nat (end_ - start))).
Proof.
  intros Hlook Hu Hlb Hlw Hlay Hfile Hs Hse He.
  destruct Hu as [_ [Hoff _]].
  set (d := Z.to_nat (end_ - start)).
  assert (Hend : end_ = start + Z.of_nat d) by (unfold d; lia).
  destruct (decode_span data entry Hlb Hlw ltac:(unfold is_u64 in Hoff; lia) Hlay start d Hs
              ltac:(lia)) as [Hdec Hle].
  rewrite <- Hend in Hdec, Hle.
  specialize (Hle ltac:(unfold d; lia)).
  pose proof (base_pos_nonneg entry Hlb Hlw ltac:(unfold is_u64 in Hoff; lia) start Hs) as Hp.
  assert (Hlt : base_pos entry start < base_pos entry end_).
  { pose proof (decode_length (zslice data (base_pos entry start)
                                 (base_pos entry end_ - base_pos entry start))) as Hl.
    rewrite Hdec, length_map, zrange_length in Hl.
    pose proof (zslice_length data (base_pos entry start)
                  (base_pos entry end_ - base_pos entry start)).
    unfold d in *. lia. }
  split; [|split; [exact Hlt | split; [|exact Hdec]]].
  - rewrite (get_region_offsets_spec idx chr entry start end_ Hlook ltac:(lia) ltac:(lia)
               He Hse).
    rewrite !wrap64_small by lia. reflexivity.
  - unfold sub64. rewrite wrap64_small by lia. cbn [read_exact file_reader_io fr_pos fr_data].
    replace (base_pos entry start + (base_pos entry end_ - base_pos entry start))
      with (base_pos entry end_) by lia.
    replace (base_pos entry end_ <=? file_len data) with true by (symmetry; apply Z.leb_le; lia).
    reflexivity.
Qed.

(** * Claims *)

(** C1. For an entry with [line_bases >= 1] and a range that passes the
    bounds checks, [get_region_offsets] returns, for [start] and [end]
    independently, [offset + (coord / line_bases) * line_width
    + coord % line_bases] in [u64] arithmetic; with [offset = 6],
    [line_bases = 12], [line_width = 13] and [length >= 16], the range
    [12..16] maps to the byte offsets 19 and 23. *)
Theorem get_region_offsets_grid (idx : FaiIndex) (chr : string) (entry : FaiEntry.t)
    (start end_ : Z) :
  entries idx !! chr = Some entry ->
  1 <= FaiEntry.line_bases entry ->
  start < FaiEntry.length entry -> end_ <= FaiEntry.length entry -> start < end_ ->
  get_region_offsets idx chr start end_
  = Ret (Some
      (wrap64 (FaiEntry.offset entry + (start / FaiEntry.line_bases entry)
                 * FaiEntry.line_width entry + start mod FaiEntry.line_bases entry),
       wrap64 (FaiEntry.offset entry + (end_ / FaiEntry.line_bases entry)
                 * FaiEntry.line_width entry + end_ mod FaiEntry.line_bases entry))) /\
  (FaiEntry.offset entry = 6 -> FaiEntry.line_bases entry = 12 ->
   FaiEntry.line_width entry = 13 -> 16 <= FaiEntry.length entry ->
   get_region_offsets idx chr 12 16 = Ret (Some (19, 23))).
Proof.
  intros Hlook Hlb Hs He Hse. split.
  - apply get_region_offsets_spec; lia || exact Hlook.
  - intros Ho Hb Hw Hl.
    rewrite (get_region_offsets_spec idx chr entry 12 16 Hlook) by lia.
    unfold base_pos. rewrite Ho, Hb, Hw. reflexivity.
Qed.

Lemma get_region_offsets_grid_witness :
  entries wrapped_index !! "chr1"%string = Some (FaiEntry.mk "chr1" 16 6 12 13) /\
  get_region_offsets wrapped_index "chr1" 12 16 = Ret (Some (19, 23)).
Proof.
  assert (Hlook : entries wrapped_index !! "chr1"%string = Some (FaiEntry.mk "chr1" 16 6 12 13))
    by reflexivity.
  split; [exact Hlook|].
  destruct (get_region_offsets_grid wrapped_index "chr1" (FaiEntry.mk "chr1" 16 6 12 13) 12 16
              Hlook ltac:(cbn; lia) ltac:(cbn; lia) ltac:(cbn; lia) ltac:(lia)) as [_ Hex].
  apply Hex; reflexivity || (cbn; lia).
Defined.

(** C2. For a valid range [0 <= start < end <= length] of an indexed
    contig whose entry has [line_width >= line_bases >= 1], over a file laid
    out as the index says, [get_region_offsets] returns [byte_end >
    byte_start] and [Fasta::read_region] returns exactly [end - start]
    chars, none of them ['\n'] or ['\r']. *)
Theorem read_region_exact_length (idx : FaiIndex) (chr : string) (entry : FaiEntry.t)
    (data : list byte) (pos start end_ : Z) :
  entries idx !! chr = Some entry -> entry_u64 entry ->
  1 <= FaiEntry.line_bases entry -> FaiEntry.line_bases entry <= FaiEntry.line_width entry ->
  layoutb data entry = true -> file_len data < u64_modulus ->
  0 <= start -> start < end_ -> end_ <= FaiEntry.length entry ->
  (exists byte_start byte_end,
     get_region_offsets idx chr start end_ = Ret (Some (byte_start, byte_end)) /\
     byte_start < byte_end) /\
  (exists f' s,
     fasta_read_region {| reader := {| fr_data := data; fr_pos := pos |};
                          index := Some idx |} chr start end_ = Ret (f', Ok s) /\
     Z.of_nat (List.length s) = end_ - start /\
     forallb (fun b => negb (is_term b)) s = true).
Proof.
  intros Hlook Hu Hlb Hlw Hlay Hfile Hs Hse He.
  destruct (region_read idx chr entry data start end_ Hlook Hu Hlb Hlw Hlay Hfile Hs Hse He)
    as [Hoffs [Hlt [Hread Hdec]]].
  split.
  - exists (base_pos entry start), (base_pos entry end_). split; [exact Hoffs | exact Hlt].
  - unfold fasta_read_region. cbn [index reader]. rewrite Hoffs. cbn [mbind outcome_bind].
    cbn [seek file_reader_io fr_data]. rewrite Hread. eexists; eexists.
    split; [reflexivity|]. split.
    + rewrite Hdec, length_map, zrange_length. lia.
    + apply decode_no_term.
Qed.

Lemma read_region_exact_length_witness :
  exists f' s,
    fasta_read_region (test_open (Some wrapped_index) wrapped_fasta) "chr1" 3 15
      = Ret (f', Ok s) /\ Z.of_nat (List.length s) = 12.
Proof.
  destruct (read_region_exact_length wrapped_index "chr1" (FaiEntry.mk "chr1" 16 6 12 13)
              wrapped_fasta 0 3 15 ltac:(reflexivity)
              ltac:(unfold entry_u64, is_u64, u64_modulus; cbn; lia)
              ltac:(cbn; lia) ltac:(cbn; lia) ltac:(vm_compute; reflexivity)
              ltac:(vm_compute; reflexivity) ltac:(lia) ltac:(lia) ltac:(cbn; lia))
    as [_ [f' [s [Hr [Hl _]]]]].
  exists f', s. split; [exact Hr | rewrite Hl; reflexivity].
Defined.

(** C3. [get_region_offsets] returns [None] exactly when the name is not
    indexed or [start >= length], [end > length] or [start >= end]; then
    [Fasta::read_region] fails with [InvalidRegion] and
    [FileContig::read_region] returns [None]. *)
Theorem region_translation_rejects {R : Type} `{AsyncReadSeek R}
    (idx : FaiIndex) (chr : string) (start end_ : Z) (r : R) :
  (get_region_offsets idx chr start end_ = Ret None <->
   entries idx !! chr = None \/
   (exists entry, entries idx !! chr = Some entry /\
      (FaiEntry.length entry <= start \/ FaiEntry.length entry < end_ \/ end_ <= start))) /\
  (get_region_offsets idx chr start end_ = Ret None ->
   fasta_read_region {| reader := r; index := Some idx |} chr start end_
     = Ret ({| reader := r; index := Some idx |}, Err InvalidRegion) /\
   file_read_region {| fc_tid := chr; fc_index := Some idx |} r start end_ = Ret (r, None)).
Proof.
  split; [apply get_region_offsets_none_iff|].
  intros Hnone. unfold fasta_read_region, file_read_region. cbn [index fc_index fc_tid].
  rewrite Hnone. split; reflexivity.
Qed.

Lemma region_translation_rejects_witness :
  fasta_read_region (test_open (Some test_index) test_fasta) "chr1" 100 200
    = Ret (test_open (Some test_index) test_fasta, Err InvalidRegion).
Proof.
  destruct (region_translation_rejects test_index "chr1" 100 200
              {| fr_data := test_fasta; fr_pos := 0 |}) as [_ Hrej].
  apply Hrej. reflexivity.
Defined.

(** C6. Without an index [Fasta::read_region] fails with [NoFAIDX] for
    every name and range; with one it fails with [InvalidRegion] exactly
    when the translation returns [None]; otherwise a seek or read error is
    returned as [Io] of that very error. A read error needs the buffer
    [vec![0u8; (file_end - file_start) as usize]] to be allocated first,
    which panics unless [file_start <= file_end] and the count is at most
    [isize::MAX]: the read part assumes both. *)
Theorem fasta_read_region_errors {R : Type} `{AsyncReadSeek R} :
  (forall (r : R) (chr : string) (start end_ : Z),
     fasta_read_region {| reader := r; index := None |} chr start end_
     = Ret ({| reader := r; index := None |}, Err NoFAIDX)) /\
  (forall (r : R) (idx : FaiIndex) (chr : string) (start end_ : Z),
     (exists f', fasta_read_region {| reader := r; index := Some idx |} chr start end_
                 = Ret (f', Err InvalidRegion)) <->
     get_region_offsets idx chr start end_ = Ret None) /\
  (forall (r : R) (idx : FaiIndex) (chr : string) (start end_ file_start file_end : Z),
     get_region_offsets idx chr start end_ = Ret (Some (file_start, file_end)) ->
     (forall r1 err, seek r file_start = (r1, Err err) ->
        fasta_read_region {| reader := r; index := Some idx |} chr start end_
        = Ret ({| reader := r1; index := Some idx |}, Err (Io err))) /\
     (0 <= file_end - file_start < 2 ^ 63 ->
      forall r1 u r2 err, seek r file_start = (r1, Ok u) ->
        read_exact r1 (sub64 file_end file_start) = (r2, Err err) ->
        fasta_read_region {| reader := r; index := Some idx |} chr start end_
        = Ret ({| reader := r2; index := Some idx |}, Err (Io err)))).
Proof.
  split; [intros; reflexivity|]. split.
  - intros r idx chr start end_. unfold fasta_read_region. cbn [index reader].
    destruct (get_region_offsets idx chr start end_) as [[[fs fe]|]|]; cbn [mbind outcome_bind].
    + split; [|discriminate]. intros [f' Hf].
      destruct (seek r fs) as [r1 [u|err]]; [|discriminate].
      destruct (read_exact r1 (sub64 fe fs)) as [r2 [buf|err]]; discriminate.
    + split; [reflexivity|]. intros _. eexists. reflexivity.
    + split; [intros [f' Hf]; discriminate | discriminate].
  - intros r idx chr start end_ fs fe Hoffs. unfold fasta_read_region. cbn [index reader].
    rewrite Hoffs. cbn [mbind outcome_bind]. split.
    + intros r1 err Hseek. rewrite Hseek. reflexivity.
    + intros _ r1 u r2 err Hseek Hread. rewrite Hseek, Hread. reflexivity.
Qed.


Lemma fasta_read_region_errors_witness :
  fasta_read_region (test_open (Some test_index) truncated_fasta) "chr1" 0 12
    = Ret ({| reader := {| fr_data := truncated_fasta; fr_pos := 18 |};
              index := Some test_index |}, Err (Io UnexpectedEof)).
Proof.
  destruct (@fasta_read_region_errors FileReader _) as [_ [_ Hio]].
  destruct (Hio {| fr_data := truncated_fasta; fr_pos := 0 |} test_index "chr1" 0 12 6 19
              ltac:(reflexivity)) as [_ Hread].
  apply (Hread ltac:(lia) {| fr_data := truncated_fasta; fr_pos := 6 |} tt); reflexivity.
Defined.

(** C7, as the code has it: when an index is attached and the name is not
    resolved by it, [read_mmap_tid] fails with [InvalidRegion], while
    [read_io_tid] succeeds with a file-backed contig whose [sequence] and
    [read_region] then return [None]. *)
Theorem materialize_one_unresolved {R : Type} `{AsyncReadSeek R}
    (f : Fasta R) (idx : FaiIndex) (tid : string) :
  index f = Some idx -> get_tid_offsets idx tid = None ->
  read_mmap_tid f tid = (f, Err InvalidRegion) /\
  exists c, read_io_tid f tid = (f, Ok c) /\
    forall r : R, contig_sequence c r = (r, None) /\
      forall start end_, contig_read_region c r start end_ = Ret (r, None).
Proof.
  intros Hidx Htid.
  assert (Hlook : entries idx !! tid = None).
  { unfold get_tid_offsets in Htid. destruct (entries idx !! tid); [discriminate | reflexivity]. }
  split.
  - unfold read_mmap_tid. rewrite Hidx, Htid. reflexivity.
  - eexists. split; [reflexivity|]. intros r. split.
    + unfold contig_sequence, file_sequence. cbn [source fc_index fc_tid].
      rewrite Hidx, Htid. reflexivity.
    + intros start end_. unfold contig_read_region, file_read_region, get_region_offsets.
      cbn [source fc_index fc_tid]. rewrite Hidx, Hlook. reflexivity.
Qed.

Lemma materialize_one_unresolved_witness :
  read_mmap_tid (test_open (Some test_index) test_fasta) "chr2"
    = (test_open (Some test_index) test_fasta, Err InvalidRegion).
Proof.
  apply (materialize_one_unresolved (test_open (Some test_index) test_fasta) test_index "chr2");
    reflexivity.
Defined.

(** C7 as stated fails: [read_io_tid] does not fail for a name the index
    does not know. *)
Lemma materialize_one_lazy_unknown_ok :
  ~ (forall tid, get_tid_offsets test_index tid = None ->
       (exists f', read_mmap_tid (test_open (Some test_index) test_fasta) tid
                   = (f', Err InvalidRegion)) /\
       (exists f', read_io_tid (test_open (Some test_index) test_fasta) tid
                   = (f', Err InvalidRegion))).
Proof.
  intros Hall. destruct (Hall "chr2"%string ltac:(reflexivity)) as [_ [f' Hio]].
  unfold read_io_tid in Hio. discriminate Hio.
Qed.

(** ** In-memory strings of ASCII chars *)

Lemma utf8_len_ascii (s : list byte) :
  is_ascii_bytes s = true -> utf8_len s = Z.of_nat (List.length s).
Proof.
  induction s as [|c s IH]; intros Hs; [reflexivity|].
  unfold is_ascii_bytes in Hs |- *. cbn [forallb] in Hs. apply andb_prop in Hs as [Hc Hs]. cbn [utf8_len List.length].
  rewrite IH by exact Hs. unfold utf8_width. rewrite Hc. lia.
Qed.

Lemma char_boundary_ascii (s : list byte) (k : nat) :
  is_ascii_bytes s = true -> (k <= List.length s)%nat ->
  char_boundary s (Z.of_nat k) = Some k.
Proof.
  revert k. induction s as [|c s IH]; intros k Hs Hk.
  - destruct k; [reflexivity | cbn in Hk; lia].
  - destruct k as [|k]; [reflexivity|].
    unfold is_ascii_bytes in Hs |- *. cbn [forallb] in Hs. apply andb_prop in Hs as [Hc Hs]. cbn [List.length] in Hk.
    cbn [char_boundary]. unfold utf8_width. rewrite Hc.
    replace (Z.of_nat (S k) =? 0) with false by (symmetry; apply Z.eqb_neq; lia).
    replace (Z.of_nat (S k) <? 1) with false by (symmetry; apply Z.ltb_ge; lia).
    replace (Z.of_nat (S k) - 1) with (Z.of_nat k) by lia.
    rewrite IH by (exact Hs || lia). reflexivity.
Qed.

Lemma str_get_ascii (s : list byte) (a b : Z) :
  is_ascii_bytes s = true -> 0 <= a <= b -> b <= Z.of_nat (List.length s) ->
  str_get s a b = Some (take (Z.to_nat (b - a)) (drop (Z.to_nat a) s)).
Proof.
  intros Hs Hab Hb. unfold str_get.
  assert (Hbound : forall x, 0 <= x <= b -> char_boundary s x = Some (Z.to_nat x)).
  { intros x Hx. rewrite <- (Z2Nat.id x) at 1 by lia.
    apply char_boundary_ascii; [exact Hs | lia]. }
  rewrite (Hbound a), (Hbound b) by lia.
  replace (Z.to_nat a <=? Z.to_nat b)%nat with true by (symmetry; apply Nat.leb_le; lia).
  f_equal. f_equal. lia.
Qed.

Lemma contig_bases_length (data : list byte) (entry : FaiEntry.t) :
  List.length (contig_bases data entry) = Z.to_nat (FaiEntry.length entry).
Proof. unfold contig_bases. rewrite length_map, zrange_length. reflexivity. Qed.

Lemma contig_bases_slice (data : list byte) (entry : FaiEntry.t) (start end_ : Z) :
  0 <= start <= end_ -> end_ <= FaiEntry.length entry ->
  take (Z.to_nat (end_ - start)) (drop (Z.to_nat start) (contig_bases data entry))
  = map (base_at data entry) (zrange start (Z.to_nat (end_ - start))).
Proof.
  intros Hse He. unfold contig_bases.
  rewrite skipn_map, firstn_map, zrange_drop, zrange_take.
  rewrite Z2Nat.id by lia. f_equal. f_equal; lia.
Qed.

(** C4, as the code has it: over a file laid out as the index says, an
    in-memory source holding the contig's complete decoded (ASCII) sequence
    and the file-backed source return the same result for every region with
    [start <> end]; for an empty region [start = end <= length] the
    in-memory source returns the empty string and the file-backed source
    returns [None]. *)
Theorem memory_file_regions_agree (idx : FaiIndex) (chr : string) (entry : FaiEntry.t)
    (data : list byte) (pos start end_ : Z) :
  entries idx !! chr = Some entry -> entry_u64 entry ->
  1 <= FaiEntry.line_bases entry -> FaiEntry.line_bases entry <= FaiEntry.line_width entry ->
  layoutb data entry = true -> file_len data < u64_modulus ->
  is_ascii_bytes (contig_bases data entry) = true ->
  0 <= start -> 0 <= end_ ->
  (start <> end_ ->
   exists r',
     file_read_region {| fc_tid := chr; fc_index := Some idx |}
                      {| fr_data := data; fr_pos := pos |} start end_
     = Ret (r', memory_read_region {| sequence := contig_bases data entry |} start end_)) /\
  (start = end_ -> end_ <= FaiEntry.length entry ->
   memory_read_region {| sequence := contig_bases data entry |} start end_ = Some [] /\
   file_read_region {| fc_tid := chr; fc_index := Some idx |}
                    {| fr_data := data; fr_pos := pos |} start end_
   = Ret ({| fr_data := data; fr_pos := pos |}, None)).
Proof.
  intros Hlook Hu Hlb Hlw Hlay Hfile Hascii Hs He.
  pose proof Hu as [[HL _] _]. unfold is_u64 in HL.
  assert (Hlen : utf8_len (contig_bases data entry) = FaiEntry.length entry).
  { rewrite utf8_len_ascii by exact Hascii. rewrite contig_bases_length. lia. }
  assert (Hrej : forall r, FaiEntry.length entry <= start \/ FaiEntry.length entry < end_
                           \/ end_ <= start ->
            file_read_region {| fc_tid := chr; fc_index := Some idx |} r start end_
            = Ret (r, None)).
  { intros r Hc. unfold file_read_region. cbn [fc_index fc_tid].
    replace (get_region_offsets idx chr start end_) with (@Ret (option (Z * Z)) None).
    - reflexivity.
    - symmetry. apply get_region_offsets_none_iff. right. exists entry. split; assumption. }
  unfold memory_read_region. cbn [sequence]. rewrite Hlen. split.
  - intros Hne. destruct (Z.lt_ge_cases end_ start) as [Hgt|Hle].
    + exists {| fr_data := data; fr_pos := pos |}. rewrite Hrej by lia.
      replace (end_ <? start) with true by (symmetry; apply Z.ltb_lt; lia).
      rewrite orb_true_r. reflexivity.
    + destruct (Z.lt_ge_cases (FaiEntry.length entry) end_) as [Hout|Hin].
      * exists {| fr_data := data; fr_pos := pos |}. rewrite Hrej by lia.
        replace (FaiEntry.length entry <? end_) with true by (symmetry; apply Z.ltb_lt; lia).
        reflexivity.
      * destruct (region_read idx chr entry data start end_ Hlook Hu Hlb Hlw Hlay Hfile Hs
                    ltac:(lia) Hin) as [Hoffs [_ [Hread Hdec]]].
        eexists. unfold file_read_region. cbn [fc_index fc_tid]. rewrite Hoffs.
        cbn [mbind outcome_bind seek file_reader_io fr_data]. rewrite Hread.
        replace (FaiEntry.length entry <? end_) with false by (symmetry; apply Z.ltb_ge; lia).
        replace (end_ <? start) with false by (symmetry; apply Z.ltb_ge; lia).
        cbn [orb]. rewrite str_get_ascii by first [exact Hascii | lia | rewrite contig_bases_length; lia].
        rewrite contig_bases_slice by lia. rewrite Hdec. reflexivity.
  - intros Heq Hin. subst end_. split.
    + replace (FaiEntry.length entry <? start) with false by (symmetry; apply Z.ltb_ge; lia).
      rewrite Z.ltb_irrefl. cbn [orb].
      rewrite str_get_ascii by first [exact Hascii | lia | rewrite contig_bases_length; lia].
      rewrite Z.sub_diag. reflexivity.
    + apply Hrej. lia.
Qed.

Lemma memory_file_regions_agree_witness :
  exists r',
    file_read_region {| fc_tid := "chr1"; fc_index := Some wrapped_index |}
                     {| fr_data := wrapped_fasta; fr_pos := 0 |} 10 14
    = Ret (r', memory_read_region {| sequence := contig_bases wrapped_fasta
                                                  (FaiEntry.mk "chr1" 16 6 12 13) |} 10 14).
Proof.
  destruct (memory_file_regions_agree wrapped_index "chr1" (FaiEntry.mk "chr1" 16 6 12 13)
              wrapped_fasta 0 10 14 ltac:(reflexivity)
              ltac:(unfold entry_u64, is_u64, u64_modulus; cbn; lia)
              ltac:(cbn; lia) ltac:(cbn; lia) ltac:(vm_compute; reflexivity)
              ltac:(vm_compute; reflexivity) ltac:(vm_compute; reflexivity)
              ltac:(lia) ltac:(lia)) as [Hagree _].
  apply Hagree. lia.
Defined.


(** C4 as stated fails: on the crate's test fixture the empty region
    [4..4] is [Some ""] through the in-memory contig and [None] through the
    file-backed one. *)
Lemma memory_file_empty_region_differs :
  ~ (forall start end_,
       contig_region (eager_contig (test_open (Some test_index) test_fasta) "chr1")
                     {| fr_data := test_fasta; fr_pos := 0 |} start end_
       = contig_region (lazy_contig (test_open (Some test_index) test_fasta) "chr1")
                       {| fr_data := test_fasta; fr_pos := 0 |} start end_).
Proof.
  intros Hall. specialize (Hall 4 4). vm_compute in Hall. discriminate Hall.
Qed.

(** C5, evaluated on a contig wrapped over two lines ([chr1\t16\t6\t12\t13]
    over [>chr1\nACGTACGTACGT\nACGT\n]): [get_tid_offsets] gives
    [[6, 22)], which holds 16 bytes including one terminator, so
    [FileContig::sequence] returns 15 bases, and [read_mmap_tid] stores the
    same 15 bases; the region read of [0..16] returns all 16. *)
Theorem whole_contig_read_truncated :
  get_tid_offsets wrapped_index "chr1" = Some (6, 22) /\
  snd (file_sequence {| fc_tid := "chr1"; fc_index := Some wrapped_index |}
                     {| fr_data := wrapped_fasta; fr_pos := 0 |})
    = Some (out "ACGTACGTACGTACG") /\
  option_map (fun c => contig_sequence c {| fr_data := wrapped_fasta; fr_pos := 0 |})
    (eager_contig (test_open (Some wrapped_index) wrapped_fasta) "chr1")
    = Some ({| fr_data := wrapped_fasta; fr_pos := 0 |}, Some (out "ACGTACGTACGTACG")) /\
  contig_region (lazy_contig (test_open (Some wrapped_index) wrapped_fasta) "chr1")
                {| fr_data := wrapped_fasta; fr_pos := 0 |} 0 16
    = Some (Some (out "ACGTACGTACGTACGT")).
Proof. repeat split; vm_compute; reflexivity. Qed.

(** ** Parsing bounds every numeric field *)

Lemma span_digits_value (input : string) (acc : Z) :
  0 <= acc -> 0 <= digits_value acc (fst (span_digits input)).
Proof.
  revert acc. induction input as [|c rest IH]; intros acc Hacc; [exact Hacc|].
  cbn [span_digits]. destruct (is_dec_digit c) eqn:Hd.
  - destruct (span_digits rest) as [ds remaining] eqn:Hsp. cbn [fst digits_value].
    specialize (IH (acc * 10 + (Z.of_nat (nat_of_ascii c) - 48))).
    try rewrite Hsp in IH. apply IH.
    unfold is_dec_digit in Hd. apply andb_prop in Hd as [Hd _]. apply Nat.leb_le in Hd. lia.
  - exact Hacc.
Qed.

Lemma parse_u64_bound (input rest : string) (v : Z) :
  parse_u64 input = Some (rest, v) -> is_u64 v.
Proof.
  unfold parse_u64. pose proof (span_digits_value input 0 ltac:(lia)) as Hnn.
  destruct (span_digits input) as [ds remaining]. cbn [fst] in Hnn.
  destruct ds as [|c ds']; [discriminate|]. cbn [digits_value] in *.
  destruct (digits_value _ ds' <? u64_modulus) eqn:Hlt; [|discriminate].
  intros Heq. injection Heq as _ <-. apply Z.ltb_lt in Hlt. unfold is_u64. lia.
Qed.

Ltac destruct_binds H :=
  repeat (apply bind_Some in H;
          let x := fresh "x" in let E := fresh "E" in
          destruct H as [x [E H]];
          lazymatch type of x with
          | prod _ _ => destruct x
          | _ => idtac
          end).

Lemma parse_fai_line_u64 (input rest : string) (entry : FaiEntry.t) :
  parse_fai_line input = Some (rest, entry) -> entry_u64 entry.
Proof.
  intros Hp. unfold parse_fai_line in Hp. destruct_binds Hp.
  injection Hp as _ <-. unfold entry_u64. cbn.
  repeat split; eapply parse_u64_bound; eassumption.
Qed.

Lemma from_lines_u64 (m : gmap string FaiEntry.t) (lines : list (result string io_error))
    (idx : FaiIndex) :
  (forall n entry, m !! n = Some entry -> entry_u64 entry /\ FaiEntry.name entry = n) ->
  from_lines m lines = Ok idx ->
  forall n entry, entries idx !! n = Some entry -> entry_u64 entry /\ FaiEntry.name entry = n.
Proof.
  revert m. induction lines as [|[line|err] lines IH]; intros m Hm Hfrom.
  - injection Hfrom as <-. exact Hm.
  - cbn [from_lines] in Hfrom.
    destruct (parse_fai_line _) as [[rest entry]|] eqn:Hp; [|discriminate].
    refine (IH _ _ Hfrom). intros n entry' Hlook.
    apply lookup_insert_Some in Hlook as [[<- <-]|[_ Hlook]].
    + split; [eapply parse_fai_line_u64; eassumption | reflexivity].
    + apply Hm. exact Hlook.
  - discriminate.
Qed.

Lemma facade_keeps_index {R : Type} `{AsyncReadSeek R} (f : Fasta R) (tid : string) :
  (forall start end_ f' res, fasta_read_region f tid start end_ = Ret (f', res) ->
     index f' = index f) /\
  index (fst (read_mmap_tid f tid)) = index f /\
  index (fst (read_io_tid f tid)) = index f.
Proof.
  split; [|split].
  - intros start end_ f' res Hr. unfold fasta_read_region in Hr.
    destruct (index f) as [idx|] eqn:Hidx; [|injection Hr as <- _; exact Hidx].
    destruct (get_region_offsets idx tid start end_) as [[[fs fe]|]|];
      cbn [mbind outcome_bind] in Hr; [|injection Hr as <- _; exact Hidx | discriminate].
    destruct (seek (reader f) fs) as [r1 [u|err]];
      [|injection Hr as <- _; exact Hidx].
    destruct (read_exact r1 (sub64 fe fs)) as [r2 [buf|err]];
      injection Hr as <- _; exact Hidx.
  - unfold read_mmap_tid. destruct (index f) as [idx|] eqn:Hidx; [|exact Hidx].
    destruct (get_tid_offsets idx tid) as [[fs fe]|]; [|exact Hidx].
    destruct (seek (reader f) fs) as [r1 [u|err]]; [|exact Hidx].
    destruct (read_exact r1 (sub64 fe fs)) as [r2 [buf|err]]; exact Hidx.
  - reflexivity.
Qed.

(** C8, as the code has it: every entry of a loaded index has its four
    numeric fields in [[0, 2^64)] (so [length >= 0] and [offset >= 0]) and
    is stored under its own name, and no operation of the facade changes the
    index afterwards; nothing enforces [line_width >= line_bases >= 1]. *)
Theorem loaded_entries_u64 {R : Type} `{AsyncReadSeek R}
    (lines : list (result string io_error)) (idx : FaiIndex) :
  from_reader lines = Ok idx ->
  (forall n entry, entries idx !! n = Some entry ->
     entry_u64 entry /\ FaiEntry.name entry = n) /\
  (forall (r : R) tid start end_ f' res,
     fasta_read_region {| reader := r; index := Some idx |} tid start end_ = Ret (f', res) ->
     index f' = Some idx) /\
  (forall (r : R) tid,
     index (fst (read_mmap_tid {| reader := r; index := Some idx |} tid)) = Some idx /\
     index (fst (read_io_tid {| reader := r; index := Some idx |} tid)) = Some idx).
Proof.
  intros Hfrom. split; [|split].
  - apply (from_lines_u64 ∅ lines idx); [|exact Hfrom].
    intros n entry Hlook. rewrite lookup_empty in Hlook. discriminate.
  - intros r tid start end_ f' res Hr.
    exact (proj1 (facade_keeps_index {| reader := r; index := Some idx |} tid)
             start end_ f' res Hr).
  - intros r tid. destruct (facade_keeps_index {| reader := r; index := Some idx |} tid)
      as [_ [Hm Hi]]. split; assumption.
Qed.

Lemma loaded_entries_u64_witness :
  entry_u64 (FaiEntry.mk "chr1" 12 6 0 0).
Proof.
  destruct (@loaded_entries_u64 FileReader _ zero_bases_lines zero_bases_index
              ltac:(reflexivity)) as [Hentries _].
  apply (proj1 (Hentries "chr1" (FaiEntry.mk "chr1" 12 6 0 0) ltac:(reflexivity))).
Defined.

(** C8 as stated fails: the index line [chr1\t12\t6\t0\t0] loads an entry
    with [line_bases = 0]. *)
Lemma loaded_entry_zero_line_bases :
  ~ (forall lines idx (n : string) entry,
       from_reader lines = Ok idx -> entries idx !! n = Some entry ->
       1 <= FaiEntry.line_bases entry <= FaiEntry.line_width entry /\
       FaiEntry.length entry >= 0 /\ FaiEntry.offset entry >= 0).
Proof.
  intros Hall.
  destruct (Hall zero_bases_lines zero_bases_index "chr1"%string (FaiEntry.mk "chr1" 12 6 0 0)
              ltac:(reflexivity) ltac:(reflexivity)) as [Hb _].
  cbn in Hb. lia.
Qed.

(** ** Building the index *)

Lemma from_lines_fold (m : gmap string FaiEntry.t) (lines : list string)
    (es : list FaiEntry.t) :
  Forall2 (fun line entry => exists rest, parse_fai_line (line +:+ nl) = Some (rest, entry))
          lines es ->
  exists idx, from_lines m (map Ok lines) = Ok idx /\
    forall n, entries idx !! n
              = fold_left (fun acc entry => if String.eqb (FaiEntry.name entry) n
                                            then Some entry else acc) es (m !! n).
Proof.
  intros Hall. revert m. induction Hall as [|line entry lines es [rest Hp] _ IH]; intros m.
  - exists {| entries := m |}. split; reflexivity.
  - destruct (IH (<[FaiEntry.name entry := entry]> m)) as [idx [Hfrom Hlook]].
    exists idx. split.
    + cbn [map from_lines]. unfold nl in Hp. rewrite Hp. exact Hfrom.
    + intros n. rewrite Hlook. cbn [fold_left]. f_equal.
      destruct (String.eqb_spec (FaiEntry.name entry) n) as [<-|Hne].
      * apply lookup_insert_eq.
      * apply lookup_insert_ne. exact Hne.
Qed.

Lemma from_lines_parse_error (m : gmap string FaiEntry.t) (pre : list string) (bad : string)
    (rest : list (result string io_error)) :
  Forall (fun line => exists r, parse_fai_line (line +:+ nl) = Some r) pre ->
  parse_fai_line (bad +:+ nl) = None ->
  from_lines m (map Ok pre ++ Ok bad :: rest) = Err ParseError.
Proof.
  intros Hpre Hbad. revert m. induction Hpre as [|line pre [[r entry] Hp] _ IH]; intros m.
  - cbn. unfold nl in Hbad. rewrite Hbad. reflexivity.
  - cbn [map app from_lines]. unfold nl in Hp. rewrite Hp. apply IH.
Qed.

(** C9. Loading lines that all parse binds each name to the entry of its
    last line (last entry wins); loading stops with [ParseError] at the
    first line that does not parse, whatever follows it. *)
Theorem from_reader_last_entry_wins :
  (forall (lines : list string) (es : list FaiEntry.t),
     Forall2 (fun line entry => exists rest, parse_fai_line (line +:+ nl) = Some (rest, entry))
             lines es ->
     exists idx, from_reader (map Ok lines) = Ok idx /\
       forall n, entries idx !! n = last_entry n es) /\
  (forall (pre : list string) (bad : string) (rest : list (result string io_error)),
     Forall (fun line => exists r, parse_fai_line (line +:+ nl) = Some r) pre ->
     parse_fai_line (bad +:+ nl) = None ->
     from_reader (map Ok pre ++ Ok bad :: rest) = Err ParseError).
Proof.
  split.
  - intros lines es Hall. destruct (from_lines_fold ∅ lines es Hall) as [idx [Hfrom Hlook]].
    exists idx. split; [exact Hfrom|]. intros n. rewrite Hlook, lookup_empty. reflexivity.
  - intros pre bad rest Hpre Hbad. apply from_lines_parse_error; assumption.
Qed.

Lemma from_reader_last_entry_wins_witness :
  exists idx, from_reader (map Ok duplicate_lines) = Ok idx /\
    entries idx !! "chr1"%string = Some (FaiEntry.mk "chr1" 16 6 12 13).
Proof.
  destruct (proj1 from_reader_last_entry_wins duplicate_lines duplicate_entries
              ltac:(repeat constructor; eexists; reflexivity)) as [idx [Hfrom Hlook]].
  exists idx. split; [exact Hfrom|]. rewrite Hlook. reflexivity.
Defined.

(** C10. [get_region_offsets] divides by [line_bases] unguarded: with
    [line_bases >= 1] it never panics, for any [start] and [end]; with
    [line_bases = 0] every range that passes the bounds checks panics; and
    the parser accepts such an entry with [length > 0]. *)
Theorem region_division_guard :
  (forall (idx : FaiIndex) (chr : string) (entry : FaiEntry.t) (start end_ : Z),
     entries idx !! chr = Some entry -> 1 <= FaiEntry.line_bases entry ->
     get_region_offsets idx chr start end_ <> Panic) /\
  (forall (idx : FaiIndex) (chr : string) (entry : FaiEntry.t) (start end_ : Z),
     entries idx !! chr = Some entry -> FaiEntry.line_bases entry = 0 ->
     start < FaiEntry.length entry -> end_ <= FaiEntry.length entry -> start < end_ ->
     get_region_offsets idx chr start end_ = Panic) /\
  parse_fai_line (fai_line ["chr1"; "12"; "6"; "0"; "0"] +:+ nl)
    = Some (EmptyString, FaiEntry.mk "chr1" 12 6 0 0) /\
  get_region_offsets zero_bases_index "chr1" 0 4 = Panic.
Proof.
  split; [|split; [|split]].
  - intros idx chr entry start end_ Hlook Hlb. unfold get_region_offsets. rewrite Hlook.
    destruct (_ || _); [discriminate|].
    unfold div64, rem64. replace (FaiEntry.line_bases entry =? 0) with false
      by (symmetry; apply Z.eqb_neq; lia).
    discriminate.
  - intros idx chr entry start end_ Hlook Hlb Hs He Hse. unfold get_region_offsets.
    rewrite Hlook.
    replace ((FaiEntry.length entry <=? start) || (FaiEntry.length entry <? end_)
             || (end_ <=? start)) with false
      by (symmetry; repeat apply orb_false_intro; apply Z.leb_gt || apply Z.ltb_ge; lia).
    unfold div64. rewrite Hlb. reflexivity.
  - reflexivity.
  - reflexivity.
Qed.

Lemma region_division_guard_witness :
  get_region_offsets test_index "chr1" 0 4 <> Panic /\
  get_region_offsets zero_bases_index "chr1" 2 3 = Panic.
Proof.
  destruct region_division_guard as [Hok [Hpanic _]]. split.
  - apply (Hok test_index "chr1" (FaiEntry.mk "chr1" 12 6 12 13)); [reflexivity | cbn; lia].
  - apply (Hpanic zero_bases_index "chr1" (FaiEntry.mk "chr1" 12 6 0 0));
      reflexivity || (cbn; lia).
Defined.

(** * The rest of the facade *)

(** ** Listing the index *)

Lemma elem_of_index_tids (idx : FaiIndex) (tid : string) :
  tid ∈ index_tids idx <-> is_Some (entries idx !! tid).
Proof.
  unfold index_tids. rewrite list_elem_of_fmap. split.
  - intros [[k e] [-> Hin]]. apply elem_of_map_to_list in Hin. exists e. exact Hin.
  - intros [e He]. exists (tid, e). split; [reflexivity|]. apply elem_of_map_to_list. exact He.
Qed.

(** [Fasta::tid_lengths] fails with [NoFAIDX] without an index; with one
    it lists every indexed name once, with the length of its entry, and
    nothing else. *)
Theorem tid_lengths_entries {R : Type} (f : Fasta R) :
  (index f = None -> tid_lengths f = Err NoFAIDX) /\
  (forall idx, index f = Some idx ->
     exists l, tid_lengths f = Ok l /\ NoDup l.*1 /\ length l = size (entries idx) /\
       forall tid len, (tid, len) ∈ l <->
         exists e, entries idx !! tid = Some e /\ FaiEntry.length e = len).
Proof.
  split.
  - intros Hidx. unfold tid_lengths. rewrite Hidx. reflexivity.
  - intros idx Hidx. unfold tid_lengths. rewrite Hidx. eexists. split; [reflexivity|].
    split; [|split].
    + rewrite <- list_fmap_compose.
      rewrite (list_fmap_ext _ fst) by (intros _ [k e] _; reflexivity).
      apply NoDup_fst_map_to_list.
    + rewrite length_fmap. apply length_map_to_list.
    + intros tid len. rewrite list_elem_of_fmap. split.
      * intros [[k e] [Heq Hin]]. injection Heq as -> ->.
        apply elem_of_map_to_list in Hin. exists e. split; [exact Hin | reflexivity].
      * intros [e [He <-]]. exists (tid, e). split; [reflexivity|].
        apply elem_of_map_to_list. exact He.
Qed.

Lemma tid_lengths_entries_witness :
  tid_lengths (test_open None test_fasta) = Err NoFAIDX /\
  exists l, tid_lengths (test_open (Some two_contig_index) test_fasta) = Ok l /\
    length l = 2%nat /\ ("chr2"%string, 8) ∈ l.
Proof.
  split; [apply (proj1 (tid_lengths_entries (test_open None test_fasta))); reflexivity|].
  destruct (proj2 (tid_lengths_entries (test_open (Some two_contig_index) test_fasta))
              two_contig_index eq_refl) as [l [Hl [_ [Hlen Hin]]]].
  exists l. split; [exact Hl|]. split; [rewrite Hlen; reflexivity|].
  apply Hin. eexists; split; reflexivity.
Defined.

(** ** Materialising every contig *)

Lemma read_all_io_loop {R : Type} `{AsyncReadSeek R} (f : Fasta R) (tids : list string)
    (m0 : gmap string Contig) :
  exists m, read_all_loop read_io_tid f tids m0 = (f, Ok m) /\
    forall k, m !! k = if decide (k ∈ tids) then Some (file_contig_of (index f) k)
                       else m0 !! k.
Proof.
  revert m0. induction tids as [|t tids IH]; intros m0.
  - exists m0. split; [reflexivity|]. intros k.
    destruct (decide (k ∈ [])) as [Hin|_]; [apply not_elem_of_nil in Hin; contradiction | reflexivity].
  - destruct (IH (<[t := file_contig_of (index f) t]> m0)) as [m [Hloop Hm]].
    exists m. split; [exact Hloop|]. intros k. rewrite Hm.
    destruct (decide (k ∈ tids)) as [Hk|Hk];
      destruct (decide (k ∈ t :: tids)) as [Hk'|Hk']; try reflexivity.
    + exfalso. apply Hk'. apply elem_of_cons. right. exact Hk.
    + apply elem_of_cons in Hk' as [->|Hk']; [apply lookup_insert_eq | contradiction].
    + apply lookup_insert_ne. intros ->. apply Hk'. apply elem_of_cons. left. reflexivity.
Qed.

(** [Fasta::read_all_io] fails with [NoFAIDX] without an index; with one
    it does no I/O and returns, for every indexed name and for no other, a
    file-backed contig of that name over the shared reader and the index. *)
Theorem read_all_io_lazy {R : Type} `{AsyncReadSeek R} (f : Fasta R) :
  (index f = None -> read_all_io f = (f, Err NoFAIDX)) /\
  (forall idx, index f = Some idx ->
     exists m, read_all_io f = (f, Ok m) /\
       forall tid, m !! tid = (fun _ => file_contig_of (Some idx) tid) <$> entries idx !! tid).
Proof.
  split.
  - intros Hidx. unfold read_all_io. rewrite Hidx. reflexivity.
  - intros idx Hidx. unfold read_all_io. rewrite Hidx.
    destruct (read_all_io_loop f (index_tids idx) ∅) as [m [Hloop Hm]].
    exists m. split; [exact Hloop|]. intros tid. rewrite Hm, Hidx.
    destruct (decide (tid ∈ index_tids idx)) as [Hin|Hin].
    + apply elem_of_index_tids in Hin as [e He]. rewrite He. reflexivity.
    + rewrite lookup_empty. destruct (entries idx !! tid) eqn:He; [|reflexivity].
      exfalso. apply Hin. apply elem_of_index_tids. rewrite He. eexists; reflexivity.
Qed.

Lemma read_all_io_lazy_witness :
  exists m, read_all_io (test_open (Some two_contig_index) test_fasta)
            = (test_open (Some two_contig_index) test_fasta, Ok m) /\
    m !! "chr2"%string = Some (file_contig_of (Some two_contig_index) "chr2").
Proof.
  destruct (proj2 (read_all_io_lazy (test_open (Some two_contig_index) test_fasta))
              two_contig_index eq_refl) as [m [Hm Hlook]].
  exists m. split; [exact Hm|]. rewrite Hlook. reflexivity.
Defined.

(** [read_mmap_tid] over a file: it reads the bytes [[offset,
    offset + length)] from wherever the reader stood. *)
Lemma read_mmap_tid_file_spec (idx : FaiIndex) (data : list byte) (pos : Z) (tid : string)
    (e : FaiEntry.t) :
  entries idx !! tid = Some e -> entry_u64 e ->
  FaiEntry.offset e + FaiEntry.length e < u64_modulus ->
  read_mmap_tid {| reader := {| fr_data := data; fr_pos := pos |}; index := Some idx |} tid
  = if FaiEntry.offset e + FaiEntry.length e <=? file_len data
    then ({| reader := {| fr_data := data; fr_pos := FaiEntry.offset e + FaiEntry.length e |};
             index := Some idx |}, Ok (memory_contig_of data tid e))
    else ({| reader := {| fr_data := data;
                          fr_pos := Z.max (FaiEntry.offset e) (file_len data) |};
             index := Some idx |}, Err (Io UnexpectedEof)).
Proof.
  intros Hlook [HL [Ho _]] Hsum. unfold is_u64 in HL, Ho.
  unfold read_mmap_tid, get_tid_offsets. cbn [index reader]. rewrite Hlook. cbn.
  unfold sub64, add64. rewrite (wrap64_small (FaiEntry.offset e + FaiEntry.length e)) by lia.
  replace (FaiEntry.offset e + FaiEntry.length e - FaiEntry.offset e)
    with (FaiEntry.length e) by ring.
  rewrite wrap64_small by lia.
  destruct (FaiEntry.offset e + FaiEntry.length e <=? file_len data); reflexivity.
Qed.

(** [Fasta::read_mmap_tid] over a file, for an entry whose byte range
    [[offset, offset + length)] ends below [2^63], so that the seek to
    [offset] and the allocation of [length] bytes succeed: when the range
    lies in the file the contig holds its bytes without terminators; when
    a non-empty range runs past the end of the file the read fails with
    [UnexpectedEof]. The reader's earlier position plays no part. *)
Theorem read_mmap_tid_file (idx : FaiIndex) (data : list byte) (pos : Z) (tid : string)
    (e : FaiEntry.t) :
  entries idx !! tid = Some e -> entry_u64 e ->
  FaiEntry.offset e + FaiEntry.length e < 2 ^ 63 ->
  (FaiEntry.offset e + FaiEntry.length e <= file_len data ->
   read_mmap_tid {| reader := {| fr_data := data; fr_pos := pos |}; index := Some idx |} tid
   = ({| reader := {| fr_data := data; fr_pos := FaiEntry.offset e + FaiEntry.length e |};
         index := Some idx |},
      Ok {| tid := tid;
            source := SrcMemory {| sequence := decode (zslice data (FaiEntry.offset e)
                                                              (FaiEntry.length e)) |} |})) /\
  (0 < FaiEntry.length e -> file_len data < FaiEntry.offset e + FaiEntry.length e ->
   snd (read_mmap_tid {| reader := {| fr_data := data; fr_pos := pos |};
                         index := Some idx |} tid) = Err (Io UnexpectedEof)).
Proof.
  intros Hlook Hu Hsum.
  assert (Hsum' : FaiEntry.offset e + FaiEntry.length e < u64_modulus)
    by (unfold u64_modulus; lia).
  rewrite (read_mmap_tid_file_spec idx data pos tid e Hlook Hu Hsum').
  split.
  - intros Hfit. replace (_ <=? _) with true by (symmetry; apply Z.leb_le; exact Hfit).
    reflexivity.
  - intros _ Hout. replace (_ <=? _) with false by (symmetry; apply Z.leb_gt; exact Hout).
    reflexivity.
Qed.

Lemma read_mmap_tid_file_witness :
  snd (read_mmap_tid (test_open (Some test_index) test_fasta) "chr1")
    = Ok {| tid := "chr1"; source := SrcMemory {| sequence := out "ACGTACGTACGT" |} |} /\
  snd (read_mmap_tid (test_open (Some two_contig_index) test_fasta) "chr2")
    = Err (Io UnexpectedEof).
Proof.
  unfold test_open. split.
  - rewrite (proj1 (read_mmap_tid_file test_index test_fasta 0 "chr1"
                      (FaiEntry.mk "chr1" 12 6 12 13) eq_refl
                      ltac:(unfold entry_u64, is_u64, u64_modulus; cbn; lia)
                      ltac:(cbn; lia))
              ltac:(vm_compute; discriminate)).
    vm_compute. reflexivity.
  - apply (proj2 (read_mmap_tid_file two_contig_index test_fasta 0 "chr2"
                    (FaiEntry.mk "chr2" 8 30 8 9) eq_refl
                    ltac:(unfold entry_u64, is_u64, u64_modulus; cbn; lia)
                    ltac:(cbn; lia)) ltac:(cbn; lia)).
    vm_compute. reflexivity.
Defined.

Section ReadAllFile.
Variable idx : FaiIndex.
Variable data : list byte.

Let at_pos (p : Z) : Fasta FileReader :=
  {| reader := {| fr_data := data; fr_pos := p |}; index := Some idx |}.

Lemma read_all_mmap_loop_ok (C : string -> Contig) (tids : list string)
    (m0 : gmap string Contig) (pos : Z) :
  (forall t, t ∈ tids -> forall p, exists p',
     read_mmap_tid (at_pos p) t = (at_pos p', Ok (C t))) ->
  exists p' m, read_all_loop read_mmap_tid (at_pos pos) tids m0 = (at_pos p', Ok m) /\
    forall k, m !! k = if decide (k ∈ tids) then Some (C k) else m0 !! k.
Proof.
  revert m0 pos. induction tids as [|t tids IH]; intros m0 pos Hall.
  - exists pos, m0. split; [reflexivity|]. intros k.
    destruct (decide (k ∈ [])) as [Hin|_]; [apply not_elem_of_nil in Hin; contradiction | reflexivity].
  - destruct (Hall t ltac:(apply elem_of_cons; left; reflexivity) pos) as [p1 Hread].
    destruct (IH (<[t := C t]> m0) p1) as [p' [m [Hloop Hm]]].
    { intros t' Ht'. apply Hall. apply elem_of_cons. right. exact Ht'. }
    exists p', m. split.
    + cbn [read_all_loop]. rewrite Hread. exact Hloop.
    + intros k. rewrite Hm.
      destruct (decide (k ∈ tids)) as [Hk|Hk];
        destruct (decide (k ∈ t :: tids)) as [Hk'|Hk']; try reflexivity.
      * exfalso. apply Hk'. apply elem_of_cons. right. exact Hk.
      * apply elem_of_cons in Hk' as [->|Hk']; [apply lookup_insert_eq | contradiction].
      * apply lookup_insert_ne. intros ->. apply Hk'. apply elem_of_cons. left. reflexivity.
Qed.

Lemma read_all_mmap_loop_err (C : string -> Contig) (err : error) (tids : list string)
    (m0 : gmap string Contig) (pos : Z) (t0 : string) :
  (forall t, t ∈ tids -> forall p, exists p',
     read_mmap_tid (at_pos p) t = (at_pos p', Ok (C t)) \/
     read_mmap_tid (at_pos p) t = (at_pos p', Err err)) ->
  t0 ∈ tids ->
  (forall p, exists p', read_mmap_tid (at_pos p) t0 = (at_pos p', Err err)) ->
  exists p', read_all_loop read_mmap_tid (at_pos pos) tids m0 = (at_pos p', Err err).
Proof.
  revert m0 pos. induction tids as [|t tids IH]; intros m0 pos Hall Hin Ht0.
  - apply not_elem_of_nil in Hin. contradiction.
  - destruct (Hall t ltac:(apply elem_of_cons; left; reflexivity) pos) as [p1 [Hok|Herr]].
    + apply elem_of_cons in Hin as [->|Hin].
      * destruct (Ht0 pos) as [p2 Herr]. rewrite Hok in Herr. discriminate Herr.
      * destruct (IH (<[t := C t]> m0) p1) as [p' Hloop]; [| exact Hin | exact Ht0 |].
        { intros t' Ht'. apply Hall. apply elem_of_cons. right. exact Ht'. }
        exists p'. cbn [read_all_loop]. rewrite Hok. exact Hloop.
    + exists p1. cbn [read_all_loop]. rewrite Herr. reflexivity.
Qed.

End ReadAllFile.

(** [Fasta::read_all_mmap] over a file, for an index whose entries have
    byte ranges [[offset, offset + length)] ending below [2^63] (every seek
    and allocation succeeds): when every range lies in the file it returns,
    for every indexed name and no other, the in-memory contig of that
    range's bytes without terminators; when some non-empty range runs past
    the end of the file it fails with [UnexpectedEof]. *)
Theorem read_all_mmap_file (idx : FaiIndex) (data : list byte) (pos : Z) :
  (forall tid e, entries idx !! tid = Some e ->
     entry_u64 e /\ FaiEntry.offset e + FaiEntry.length e < 2 ^ 63) ->
  ((forall tid e, entries idx !! tid = Some e ->
      FaiEntry.offset e + FaiEntry.length e <= file_len data) ->
   exists r m,
     read_all_mmap {| reader := {| fr_data := data; fr_pos := pos |}; index := Some idx |}
     = ({| reader := r; index := Some idx |}, Ok m) /\
     forall tid, m !! tid = memory_contig_of data tid <$> entries idx !! tid) /\
  ((exists tid e, entries idx !! tid = Some e /\ 0 < FaiEntry.length e /\
      file_len data < FaiEntry.offset e + FaiEntry.length e) ->
   exists r,
     read_all_mmap {| reader := {| fr_data := data; fr_pos := pos |}; index := Some idx |}
     = ({| reader := r; index := Some idx |}, Err (Io UnexpectedEof))).
Proof.
  intros Hent.
  set (C := fun t => match entries idx !! t with
                     | Some e => memory_contig_of data t e
                     | None => file_contig_of None t
                     end).
  assert (Hstep : forall t e p, entries idx !! t = Some e ->
            read_mmap_tid {| reader := {| fr_data := data; fr_pos := p |};
                             index := Some idx |} t
            = if FaiEntry.offset e + FaiEntry.length e <=? file_len data
              then ({| reader := {| fr_data := data;
                                    fr_pos := FaiEntry.offset e + FaiEntry.length e |};
                       index := Some idx |}, Ok (C t))
              else ({| reader := {| fr_data := data;
                                    fr_pos := Z.max (FaiEntry.offset e) (file_len data) |};
                       index := Some idx |}, Err (Io UnexpectedEof))).
  { intros t e p He. destruct (Hent t e He) as [Hu Hsum].
    assert (Hsum' : FaiEntry.offset e + FaiEntry.length e < u64_modulus)
      by (unfold u64_modulus; lia).
    rewrite (read_mmap_tid_file_spec idx data p t e He Hu Hsum'). unfold C. rewrite He.
    reflexivity. }
  unfold read_all_mmap. cbn [index]. split.
  - intros Hfit.
    destruct (read_all_mmap_loop_ok idx data C (index_tids idx) ∅ pos) as [p' [m [Hloop Hm]]].
    { intros t Ht p. apply elem_of_index_tids in Ht as [e He].
      rewrite (Hstep t e p He). replace (_ <=? _) with true
        by (symmetry; apply Z.leb_le; exact (Hfit t e He)).
      eexists. reflexivity. }
    eexists _, m. split; [exact Hloop|]. intros tid. rewrite Hm.
    destruct (decide (tid ∈ index_tids idx)) as [Hin|Hin].
    + apply elem_of_index_tids in Hin as [e He]. unfold C. rewrite He. reflexivity.
    + rewrite lookup_empty. destruct (entries idx !! tid) eqn:He; [|reflexivity].
      exfalso. apply Hin. apply elem_of_index_tids. rewrite He. eexists; reflexivity.
  - intros [t0 [e0 [He0 [_ Hout]]]].
    destruct (read_all_mmap_loop_err idx data C (Io UnexpectedEof) (index_tids idx) ∅ pos t0)
      as [p' Hloop].
    + intros t Ht p. apply elem_of_index_tids in Ht as [e He]. rewrite (Hstep t e p He).
      destruct (_ <=? _); eexists; [left | right]; reflexivity.
    + apply elem_of_index_tids. rewrite He0. eexists; reflexivity.
    + intros p. rewrite (Hstep t0 e0 p He0).
      replace (_ <=? _) with false by (symmetry; apply Z.leb_gt; exact Hout).
      eexists. reflexivity.
    + eexists. exact Hloop.
Qed.

Lemma read_all_mmap_file_witness :
  (exists r m, read_all_mmap (test_open (Some test_index) test_fasta)
               = ({| reader := r; index := Some test_index |}, Ok m) /\
     m !! "chr1"%string = Some (memory_contig_of test_fasta "chr1" (FaiEntry.mk "chr1" 12 6 12 13))) /\
  (exists r, read_all_mmap (test_open (Some two_contig_index) test_fasta)
             = ({| reader := r; index := Some two_contig_index |}, Err (Io UnexpectedEof))).
Proof.
  assert (Hbounds : forall (i : FaiIndex), i = test_index \/ i = two_contig_index ->
            forall tid e, entries i !! tid = Some e ->
            entry_u64 e /\ FaiEntry.offset e + FaiEntry.length e < 2 ^ 63).
  { intros i Hi tid e He.
    assert (Ht : entries test_index
                 = <["chr1"%string := FaiEntry.mk "chr1" 12 6 12 13]> (∅ : gmap string FaiEntry.t))
      by reflexivity.
    assert (Hcases : e = FaiEntry.mk "chr1" 12 6 12 13 \/ e = FaiEntry.mk "chr2" 8 30 8 9).
    { destruct Hi as [-> | ->].
      - left. rewrite Ht in He. apply lookup_insert_Some in He as [[_ <-]|[_ He]]; [reflexivity|].
        rewrite lookup_empty in He. discriminate.
      - cbn [entries two_contig_index] in He.
        apply lookup_insert_Some in He as [[_ <-]|[_ He]]; [right; reflexivity|].
        apply lookup_insert_Some in He as [[_ <-]|[_ He]]; [left; reflexivity|].
        rewrite lookup_empty in He. discriminate. }
    unfold entry_u64, is_u64, u64_modulus.
    destruct Hcases as [-> | ->]; cbn; lia. }
  unfold test_open. split.
  - destruct (proj1 (read_all_mmap_file test_index test_fasta 0
                       (Hbounds test_index (or_introl eq_refl))))
      as [r [m [Hm Hlook]]].
    + intros tid e He.
      assert (Ht : entries test_index
                   = <["chr1"%string := FaiEntry.mk "chr1" 12 6 12 13]> (∅ : gmap string FaiEntry.t))
        by reflexivity.
      rewrite Ht in He. apply lookup_insert_Some in He as [[_ <-]|[_ He]];
        [vm_compute; discriminate | rewrite lookup_empty in He; discriminate].
    + exists r, m. split; [exact Hm|]. rewrite Hlook. reflexivity.
  - apply (proj2 (read_all_mmap_file two_contig_index test_fasta 0
                    (Hbounds two_contig_index (or_intror eq_refl)))).
    exists "chr2"%string, (FaiEntry.mk "chr2" 8 30 8 9). split; [reflexivity|].
    split; [cbn; lia|]. vm_compute. reflexivity.
Defined.

(** ** Reads through the shared reader *)

(** Every read over a file seeks before it reads: what [Fasta::read_region],
    [FileContig::read_region], [FileContig::sequence] and
    [Fasta::read_mmap_tid] return does not depend on where earlier reads
    left the shared reader. *)
Theorem file_reads_ignore_position (data : list byte) (p p' : Z) (idx : option FaiIndex)
    (fc : FileContig) (tid : string) (start end_ : Z) :
  option_map snd (outcome_value
    (fasta_read_region {| reader := {| fr_data := data; fr_pos := p |}; index := idx |}
                       tid start end_))
  = option_map snd (outcome_value
    (fasta_read_region {| reader := {| fr_data := data; fr_pos := p' |}; index := idx |}
                       tid start end_)) /\
  option_map snd (outcome_value
    (file_read_region fc {| fr_data := data; fr_pos := p |} start end_))
  = option_map snd (outcome_value
    (file_read_region fc {| fr_data := data; fr_pos := p' |} start end_)) /\
  snd (file_sequence fc {| fr_data := data; fr_pos := p |})
  = snd (file_sequence fc {| fr_data := data; fr_pos := p' |}) /\
  snd (read_mmap_tid {| reader := {| fr_data := data; fr_pos := p |}; index := idx |} tid)
  = snd (read_mmap_tid {| reader := {| fr_data := data; fr_pos := p' |}; index := idx |} tid).
Proof.
  split; [|split; [|split]].
  - unfold fasta_read_region. cbn [index reader]. destruct idx as [i|]; [|reflexivity].
    destruct (get_region_offsets i tid start end_) as [[[fs fe]|]|]; reflexivity.
  - unfold file_read_region. destruct (fc_index fc) as [i|]; [|reflexivity].
    destruct (get_region_offsets i (fc_tid fc) start end_) as [[[fs fe]|]|]; reflexivity.
  - unfold file_sequence. destruct (fc_index fc) as [i|]; [|reflexivity].
    destruct (get_tid_offsets i (fc_tid fc)) as [[fs fe]|]; reflexivity.
  - unfold read_mmap_tid. cbn [index reader]. destruct idx as [i|]; [|reflexivity].
    destruct (get_tid_offsets i tid) as [[fs fe]|]; reflexivity.
Qed.

(** The contig [read_io_tid] returns reads, through [sequence], the same
    string as the contig [read_mmap_tid] would build from the same reader,
    and leaves the reader in the same state; where [read_mmap_tid] fails,
    with any error, [sequence] returns [None]. *)
Theorem lazy_sequence_matches_eager {R : Type} `{AsyncReadSeek R}
    (f : Fasta R) (tid : string) (cl : Contig) :
  read_io_tid f tid = (f, Ok cl) ->
  (forall f' c, read_mmap_tid f tid = (f', Ok c) ->
     contig_sequence cl (reader f) = (reader f', snd (contig_sequence c (reader f')))) /\
  (forall f' err, read_mmap_tid f tid = (f', Err err) ->
     contig_sequence cl (reader f) = (reader f', None)).
Proof.
  intros Hio. unfold read_io_tid in Hio. injection Hio as <-.
  unfold contig_sequence, file_sequence, read_mmap_tid. cbn [source fc_index fc_tid].
  destruct (index f) as [idx|];
    [|split; intros f' x Hr; inversion Hr; subst; reflexivity].
  destruct (get_tid_offsets idx tid) as [[fs fe]|];
    [|split; intros f' x Hr; inversion Hr; subst; reflexivity].
  destruct (seek (reader f) fs) as [r1 [u|err]];
    [|split; intros f' x Hr; inversion Hr; subst; reflexivity].
  destruct (read_exact r1 (sub64 fe fs)) as [r2 [buf|err]];
    split; intros f' x Hr; inversion Hr; subst; reflexivity.
Qed.

Lemma lazy_sequence_matches_eager_witness :
  contig_sequence (file_contig_of (Some test_index) "chr1")
                  {| fr_data := test_fasta; fr_pos := 0 |}
  = ({| fr_data := test_fasta; fr_pos := 18 |}, Some (out "ACGTACGTACGT")).
Proof.
  exact (proj1 (@lazy_sequence_matches_eager FileReader file_reader_io (test_open (Some test_index) test_fasta) "chr1"
                    (file_contig_of (Some test_index) "chr1") eq_refl)
             {| reader := {| fr_data := test_fasta; fr_pos := 18 |}; index := Some test_index |}
             {| tid := "chr1"; source := SrcMemory {| sequence := out "ACGTACGTACGT" |} |}
             ltac:(vm_compute; reflexivity)).
Defined.

(** [read_region] on the contig [read_io_tid] returns gives what
    [Fasta::read_region] gives for the same name and range, each error
    turned into [None], and leaves the reader in the same state; both panic
    on the same inputs. *)
Theorem lazy_region_matches_facade {R : Type} `{AsyncReadSeek R}
    (f : Fasta R) (tid : string) (cl : Contig) (start end_ : Z) :
  read_io_tid f tid = (f, Ok cl) ->
  contig_read_region cl (reader f) start end_
  = match fasta_read_region f tid start end_ with
    | Ret (f', res) => Ret (reader f', result_value res)
    | Panic => Panic
    end.
Proof.
  intros Hio. unfold read_io_tid in Hio. injection Hio as <-.
  unfold contig_read_region, file_read_region, fasta_read_region. cbn [source fc_index fc_tid].
  destruct (index f) as [idx|]; [|reflexivity].
  destruct (get_region_offsets idx tid start end_) as [[[fs fe]|]|]; cbn [mbind outcome_bind];
    [|reflexivity|reflexivity].
  destruct (seek (reader f) fs) as [r1 [u|err]]; [|reflexivity].
  destruct (read_exact r1 (sub64 fe fs)) as [r2 [buf|err]]; reflexivity.
Qed.

Lemma lazy_region_matches_facade_witness :
  contig_read_region (file_contig_of (Some test_index) "chr1")
                     {| fr_data := truncated_fasta; fr_pos := 0 |} 0 12
  = Ret ({| fr_data := truncated_fasta; fr_pos := 18 |}, None).
Proof.
  etransitivity;
    [exact (@lazy_region_matches_facade FileReader file_reader_io
              (test_open (Some test_index) truncated_fasta) "chr1"
              (file_contig_of (Some test_index) "chr1") 0 12 eq_refl)|].
  vm_compute. reflexivity.
Defined.

(** ** What a region read returns *)

Lemma fasta_read_region_slice (idx : FaiIndex) (chr : string) (entry : FaiEntry.t)
    (data : list byte) (pos start end_ : Z) :
  entries idx !! chr = Some entry -> entry_u64 entry ->
  1 <= FaiEntry.line_bases entry -> FaiEntry.line_bases entry <= FaiEntry.line_width entry ->
  layoutb data entry = true -> file_len data < u64_modulus ->
  0 <= start -> start < end_ -> end_ <= FaiEntry.length entry ->
  fasta_read_region {| reader := {| fr_data := data; fr_pos := pos |}; index := Some idx |}
                    chr start end_
  = Ret ({| reader := {| fr_data := data; fr_pos := base_pos entry end_ |};
            index := Some idx |},
         Ok (take (Z.to_nat (end_ - start)) (drop (Z.to_nat start) (contig_bases data entry)))).
Proof.
  intros Hlook Hu Hlb Hlw Hlay Hfile Hs Hse He.
  destruct (region_read idx chr entry data start end_ Hlook Hu Hlb Hlw Hlay Hfile Hs Hse He)
    as [Hoffs [_ [Hread Hdec]]].
  unfold fasta_read_region. cbn [index reader]. rewrite Hoffs. cbn [mbind outcome_bind].
  cbn [seek file_reader_io fr_data]. rewrite Hread.
  rewrite contig_bases_slice by lia. rewrite Hdec. reflexivity.
Qed.

(** Over a file laid out as the index says, [Fasta::read_region(name,
    start, end)] returns the bases [start .. end - 1] of the contig, in
    order: the slice [[start, end)] of the contig's decoded sequence. *)
Theorem read_region_returns_bases (idx : FaiIndex) (chr : string) (entry : FaiEntry.t)
    (data : list byte) (pos start end_ : Z) :
  entries idx !! chr = Some entry -> entry_u64 entry ->
  1 <= FaiEntry.line_bases entry -> FaiEntry.line_bases entry <= FaiEntry.line_width entry ->
  layoutb data entry = true -> file_len data < u64_modulus ->
  0 <= start -> start < end_ -> end_ <= FaiEntry.length entry ->
  exists f',
    fasta_read_region {| reader := {| fr_data := data; fr_pos := pos |}; index := Some idx |}
                      chr start end_
    = Ret (f', Ok (take (Z.to_nat (end_ - start))
                        (drop (Z.to_nat start) (contig_bases data entry)))).
Proof.
  intros. eexists. apply fasta_read_region_slice; assumption.
Qed.

Lemma read_region_returns_bases_witness :
  exists f', fasta_read_region (test_open (Some wrapped_index) wrapped_fasta) "chr1" 10 14
             = Ret (f', Ok (out "GTAC")).
Proof.
  destruct (read_region_returns_bases wrapped_index "chr1" (FaiEntry.mk "chr1" 16 6 12 13)
              wrapped_fasta 0 10 14 ltac:(reflexivity)
              ltac:(unfold entry_u64, is_u64, u64_modulus; cbn; lia)
              ltac:(cbn; lia) ltac:(cbn; lia) ltac:(vm_compute; reflexivity)
              ltac:(vm_compute; reflexivity) ltac:(lia) ltac:(lia) ltac:(cbn; lia))
    as [f' Hr].
  exists f'. unfold test_open. rewrite Hr. vm_compute. reflexivity.
Defined.

(** Over a file laid out as the index says, reading [[a, b)] and then,
    through the reader the first read left, [[b, c)] gives two strings
    whose concatenation is what reading [[a, c)] gives. *)
Theorem read_region_concat (idx : FaiIndex) (chr : string) (entry : FaiEntry.t)
    (data : list byte) (pos a b c : Z) :
  entries idx !! chr = Some entry -> entry_u64 entry ->
  1 <= FaiEntry.line_bases entry -> FaiEntry.line_bases entry <= FaiEntry.line_width entry ->
  layoutb data entry = true -> file_len data < u64_modulus ->
  0 <= a -> a < b -> b < c -> c <= FaiEntry.length entry ->
  exists f1 s1 f2 s2 f3 s3,
    fasta_read_region {| reader := {| fr_data := data; fr_pos := pos |}; index := Some idx |}
                      chr a b = Ret (f1, Ok s1) /\
    fasta_read_region f1 chr b c = Ret (f2, Ok s2) /\
    fasta_read_region {| reader := {| fr_data := data; fr_pos := pos |}; index := Some idx |}
                      chr a c = Ret (f3, Ok s3) /\
    s1 ++ s2 = s3.
Proof.
  intros Hlook Hu Hlb Hlw Hlay Hfile Ha Hab Hbc Hc.
  do 6 eexists. split; [|split; [|split]].
  - apply (fasta_read_region_slice idx chr entry); first [assumption | lia].
  - apply (fasta_read_region_slice idx chr entry); first [assumption | lia].
  - apply (fasta_read_region_slice idx chr entry); first [assumption | lia].
  - set (L := contig_bases data entry).
    replace (Z.to_nat b) with (Z.to_nat a + Z.to_nat (b - a))%nat by lia.
    rewrite <- drop_drop, take_take_drop.
    f_equal. lia.
Qed.

Lemma read_region_concat_witness :
  exists f1 s1 f2 s2 f3 s3,
    fasta_read_region (test_open (Some wrapped_index) wrapped_fasta) "chr1" 2 13
      = Ret (f1, Ok s1) /\
    fasta_read_region f1 "chr1" 13 16 = Ret (f2, Ok s2) /\
    fasta_read_region (test_open (Some wrapped_index) wrapped_fasta) "chr1" 2 16
      = Ret (f3, Ok s3) /\
    s1 ++ s2 = s3.
Proof.
  exact (read_region_concat wrapped_index "chr1" (FaiEntry.mk "chr1" 16 6 12 13)
           wrapped_fasta 0 2 13 16 ltac:(reflexivity)
           ltac:(unfold entry_u64, is_u64, u64_modulus; cbn; lia)
           ltac:(cbn; lia) ltac:(cbn; lia) ltac:(vm_compute; reflexivity)
           ltac:(vm_compute; reflexivity) ltac:(lia) ltac:(lia) ltac:(lia) ltac:(cbn; lia)).
Defined.

(** ** In-memory regions *)

Lemma utf8_width_pos (c : byte) : 1 <= utf8_width c.
Proof. unfold utf8_width. destruct (_ <? _)%nat; lia. Qed.

Lemma utf8_len_nonneg (s : list byte) : 0 <= utf8_len s.
Proof. induction s as [|c s IH]; cbn; [lia|]. pose proof (utf8_width_pos c). lia. Qed.

Lemma utf8_len_app (s t : list byte) : utf8_len (s ++ t) = utf8_len s + utf8_len t.
Proof. induction s as [|c s IH]; cbn; [reflexivity|]. rewrite IH. ring. Qed.

(** [char_boundary s a] finds the number of chars whose encoding takes
    exactly [a] bytes. *)
Lemma char_boundary_spec (s : list byte) (a : Z) (i : nat) :
  char_boundary s a = Some i <-> (i <= length s)%nat /\ utf8_len (take i s) = a.
Proof.
  revert a i. induction s as [|c s IH]; intros a i; cbn [char_boundary].
  - destruct (Z.eqb_spec a 0) as [->|Ha].
    + split.
      * intros Heq. injection Heq as <-. split; [cbn; lia | reflexivity].
      * intros [Hi _]. cbn in Hi. f_equal. lia.
    + split; [discriminate|]. intros [Hi Hl]. cbn in Hi.
      replace i with 0%nat in Hl by lia. cbn in Hl. lia.
  - pose proof (utf8_width_pos c) as Hw.
    destruct (Z.eqb_spec a 0) as [->|Ha].
    + split.
      * intros Heq. injection Heq as <-. split; [cbn; lia | reflexivity].
      * intros [Hi Hl]. destruct i as [|i]; [reflexivity|].
        cbn in Hl. pose proof (utf8_len_nonneg (take i s)). lia.
    + destruct (Z.ltb_spec a (utf8_width c)) as [Hlt|Hge].
      * split; [discriminate|]. intros [Hi Hl]. destruct i as [|i]; cbn in Hl; [lia|].
        pose proof (utf8_len_nonneg (take i s)). lia.
      * destruct i as [|i].
        -- split.
           ++ destruct (char_boundary s (a - utf8_width c)); discriminate.
           ++ intros [_ Hl]. cbn in Hl. lia.
        -- cbn [take utf8_len length].
           destruct (char_boundary s (a - utf8_width c)) as [j|] eqn:Hcb.
           ++ pose proof (proj1 (IH _ j) Hcb) as [Hj Hlj]. cbn [option_map]. split.
              ** intros Heq. injection Heq as <-. split; [lia | lia].
              ** intros [Hi Hl]. f_equal. f_equal.
                 assert (Hcb' : char_boundary s (a - utf8_width c) = Some i)
                   by (apply IH; split; lia).
                 rewrite Hcb in Hcb'. injection Hcb' as ->. reflexivity.
           ++ cbn [option_map]. split; [discriminate|]. intros [Hi Hl].
              assert (Hcb' : char_boundary s (a - utf8_width c) = Some i)
                by (apply IH; split; lia).
              rewrite Hcb in Hcb'. discriminate.
Qed.

(** [MemoryContig::read_region(start, end)] returns [Some s] exactly when
    the sequence splits as [pre ++ s ++ post] with [pre] taking [start]
    bytes and [pre ++ s] taking [end] bytes in UTF-8, so that both are char
    boundaries within the sequence; for every other range it returns
    [None], never panicking. *)
Theorem memory_read_region_split (m : MemoryContig) (start end_ : Z) (s : list byte) :
  memory_read_region m start end_ = Some s <->
  exists pre post, sequence m = pre ++ s ++ post /\
    utf8_len pre = start /\ utf8_len pre + utf8_len s = end_.
Proof.
  unfold memory_read_region, str_get. split.
  - destruct ((utf8_len (sequence m) <? end_) || (end_ <? start)); [discriminate|].
    destruct (char_boundary (sequence m) start) as [i|] eqn:Hi; [|discriminate].
    destruct (char_boundary (sequence m) end_) as [j|] eqn:Hj; [|discriminate].
    destruct (Nat.leb_spec i j) as [Hij|]; [|discriminate].
    intros Heq. injection Heq as <-.
    apply char_boundary_spec in Hi as [Hi Hli]. apply char_boundary_spec in Hj as [Hj Hlj].
    exists (take i (sequence m)), (drop j (sequence m)). split; [|split; [exact Hli|]].
    + rewrite <- (take_drop i (sequence m)) at 1. f_equal.
      rewrite <- (take_drop (j - i) (drop i (sequence m))) at 1. f_equal.
      rewrite drop_drop. f_equal. lia.
    + rewrite <- utf8_len_app, take_take_drop. rewrite <- Hlj. f_equal. f_equal. lia.
  - intros [pre [post [Hseq [Hpre Hend]]]].
    pose proof (utf8_len_nonneg s). pose proof (utf8_len_nonneg post).
    assert (Hlen : utf8_len (sequence m) = utf8_len pre + utf8_len s + utf8_len post)
      by (rewrite Hseq, !utf8_len_app; ring).
    replace ((utf8_len (sequence m) <? end_) || (end_ <? start)) with false
      by (symmetry; apply orb_false_intro; apply Z.ltb_ge; lia).
    assert (Hi : char_boundary (sequence m) start = Some (length pre)).
    { apply char_boundary_spec. rewrite Hseq, length_app, take_app_length. lia. }
    assert (Hj : char_boundary (sequence m) end_ = Some (length pre + length s)%nat).
    { apply char_boundary_spec. rewrite Hseq, !length_app, app_assoc, take_app_length'
        by (rewrite length_app; reflexivity).
      rewrite utf8_len_app. lia. }
    rewrite Hi, Hj. replace (length pre <=? length pre + length s)%nat with true
      by (symmetry; apply Nat.leb_le; lia).
    f_equal. rewrite Hseq, drop_app_length.
    replace (length pre + length s - length pre)%nat with (length s) by lia.
    apply take_app_length.
Qed.

Lemma memory_read_region_split_witness :
  memory_read_region {| sequence := out "ACGTACGTACGT" |} 0 12 = Some (out "ACGTACGTACGT").
Proof.
  apply memory_read_region_split. exists [], []. split; [|split]; reflexivity.
Defined.

(** ** Reverse complement *)

Lemma complement_char_nucleotide (c : Z) : is_nucleotide (complement_char c) = true.
Proof.
  unfold complement_char.
  repeat match goal with |- context [if ?b then _ else _] => destruct b end; reflexivity.
Qed.

Lemma complement_char_twice (c : Z) : complement_char (complement_char c) = canonical_base c.
Proof.
  unfold complement_char at 2, canonical_base.
  destruct (Z.eqb_spec c 65); [subst; reflexivity|].
  destruct (Z.eqb_spec c 97); [subst; reflexivity|].
  destruct (Z.eqb_spec c 84); [subst; reflexivity|].
  destruct (Z.eqb_spec c 116); [subst; reflexivity|].
  destruct (Z.eqb_spec c 67); [subst; reflexivity|].
  destruct (Z.eqb_spec c 99); [subst; reflexivity|].
  destruct (Z.eqb_spec c 71); [subst; reflexivity|].
  destruct (Z.eqb_spec c 103); [subst; reflexivity|].
  destruct (Z.eqb_spec c 78); [subst; reflexivity|].
  destruct (Z.eqb_spec c 110); [subst; reflexivity|].
  reflexivity.
Qed.

Lemma canonical_base_nucleotide (c : Z) : is_nucleotide c = true -> canonical_base c = c.
Proof.
  unfold is_nucleotide, canonical_base. intros Hc.
  repeat (apply orb_true_iff in Hc as [Hc|Hc]); apply Z.eqb_eq in Hc; subst; reflexivity.
Qed.

(** [reverse_complement] keeps the number of chars and yields only [A],
    [C], [G], [T] and [N]; the char at position [i] of the result is the
    complement of the char at position [len - 1 - i] of the input. *)
Theorem reverse_complement_shape (s : list Z) :
  length (reverse_complement s) = length s /\
  Forall (fun c => is_nucleotide c = true) (reverse_complement s) /\
  forall i c, s !! i = Some c ->
    reverse_complement s !! (length s - 1 - i)%nat = Some (complement_char c).
Proof.
  unfold reverse_complement. split; [|split].
  - rewrite length_fmap, length_reverse. reflexivity.
  - apply Forall_fmap. apply Forall_forall. intros c _. apply complement_char_nucleotide.
  - intros i c Hi. pose proof (lookup_lt_Some _ _ _ Hi) as Hlt.
    rewrite list_lookup_fmap, reverse_lookup by lia.
    replace (length s - S (length s - 1 - i))%nat with i by lia. rewrite Hi. reflexivity.
Qed.

Lemma reverse_complement_shape_witness :
  reverse_complement (codes "ATGXZ") !! 4%nat = Some (complement_char 65) /\
  reverse_complement (codes "ATGXZ") = codes "NNCAT".
Proof.
  split; [|vm_compute; reflexivity].
  exact (proj2 (proj2 (reverse_complement_shape (codes "ATGXZ"))) 0%nat 65 eq_refl).
Defined.

(** Applying [reverse_complement] twice gives back the input with every
    char replaced by the upper-case base it stands for ([N] for anything
    but [A], [C], [G], [T] in either case); so it is an involution on
    strings over [A], [C], [G], [T], [N]. *)
Theorem reverse_complement_twice (s : list Z) :
  reverse_complement (reverse_complement s) = canonical_base <$> s /\
  (Forall (fun c => is_nucleotide c = true) s ->
   reverse_complement (reverse_complement s) = s).
Proof.
  assert (Htwice : reverse_complement (reverse_complement s) = canonical_base <$> s).
  { unfold reverse_complement. rewrite (fmap_reverse complement_char s), reverse_involutive.
    rewrite <- list_fmap_compose. apply list_fmap_ext. intros _ c _.
    apply complement_char_twice. }
  split; [exact Htwice|]. intros Hall. rewrite Htwice.
  rewrite <- (list_fmap_id s) at 2. apply list_fmap_ext. intros i c Hc.
  apply canonical_base_nucleotide. rewrite Forall_lookup in Hall. exact (Hall i c Hc).
Qed.

Lemma reverse_complement_twice_witness :
  reverse_complement (reverse_complement (codes "ACGTN")) = codes "ACGTN".
Proof.
  apply (proj2 (reverse_complement_twice (codes "ACGTN"))).
  repeat constructor.
Defined.

(** ** Index lines written and read back *)

Lemma string_app_cons (c : ascii) (a b : string) : String c a +:+ b = String c (a +:+ b).
Proof. reflexivity. Qed.

Lemma string_app_empty (b : string) : EmptyString +:+ b = b.
Proof. reflexivity. Qed.

Lemma string_app_assoc (a b c : string) : (a +:+ b) +:+ c = a +:+ (b +:+ c).
Proof.
  induction a as [|ch a IH]; [reflexivity|]. rewrite !string_app_cons, IH. reflexivity.
Qed.

Lemma string_app_nil (a : string) : a +:+ EmptyString = a.
Proof. induction a as [|ch a IH]; [reflexivity|]. rewrite string_app_cons, IH. reflexivity. Qed.

Lemma digits_value_app (v : Z) (a b : string) :
  digits_value v (a +:+ b) = digits_value (digits_value v a) b.
Proof.
  revert v. induction a as [|ch a IH]; intros v; [reflexivity|].
  rewrite string_app_cons. cbn [digits_value]. apply IH.
Qed.

Lemma take_until_tab_app (name rest : string) :
  has_tab name = false ->
  take_until_tab (name +:+ String tab_char rest) = Some (name, String tab_char rest).
Proof.
  induction name as [|c name IH]; intros Hn; [reflexivity|].
  unfold has_tab in Hn. cbn [list_ascii_of_string existsb] in Hn.
  apply orb_false_iff in Hn as [Hc Hn].
  rewrite string_app_cons. cbn [take_until_tab]. rewrite Hc. rewrite IH by exact Hn. reflexivity.
Qed.

(** [dec_string_aux] writes the digits of [n] in front of [acc], and they
    read back as [n]. *)
Lemma dec_string_aux_spec (fuel : nat) :
  forall n acc, 0 <= n < 10 ^ (Z.of_nat fuel + 1) ->
  exists ds, dec_string_aux (S fuel) n acc = ds +:+ acc /\ ds <> EmptyString /\
    (forall rest x y, span_digits rest = (x, y) -> span_digits (ds +:+ rest) = (ds +:+ x, y)) /\
    digits_value 0 ds = n.
Proof.
  assert (Hdigit : forall n, 0 <= n < 10 ->
            is_dec_digit (digit_char n) = true /\
            Z.of_nat (nat_of_ascii (digit_char n)) - 48 = n).
  { intros n Hn. unfold digit_char, is_dec_digit.
    rewrite nat_ascii_embedding by lia. split; [|lia].
    apply andb_true_intro. split; apply Nat.leb_le; lia. }
  assert (Hone : forall d rest x y, 0 <= d < 10 -> span_digits rest = (x, y) ->
            span_digits (String (digit_char d) rest) = (String (digit_char d) x, y)).
  { intros d rest x y Hd Hsp. cbn [span_digits].
    rewrite (proj1 (Hdigit d Hd)), Hsp. reflexivity. }
  induction fuel as [|fuel IH]; intros n acc Hn.
  - cbn [dec_string_aux]. replace (n <? 10) with true by (symmetry; apply Z.ltb_lt; lia).
    exists (String (digit_char (n mod 10)) EmptyString). split; [reflexivity|].
    split; [discriminate|]. split.
    + intros rest x y Hsp. rewrite !string_app_cons, !string_app_empty. apply Hone; [apply Z.mod_pos_bound; lia | exact Hsp].
    + cbn [digits_value]. rewrite (proj2 (Hdigit (n mod 10) (Z.mod_pos_bound n 10 ltac:(lia)))).
      rewrite Z.mod_small by lia. lia.
  - cbn [dec_string_aux]. destruct (Z.ltb_spec n 10) as [Hlt|Hge].
    + exists (String (digit_char (n mod 10)) EmptyString). split; [reflexivity|].
      split; [discriminate|]. split.
      * intros rest x y Hsp. rewrite !string_app_cons, !string_app_empty. apply Hone; [apply Z.mod_pos_bound; lia | exact Hsp].
      * cbn [digits_value]. rewrite (proj2 (Hdigit (n mod 10) (Z.mod_pos_bound n 10 ltac:(lia)))).
        rewrite Z.mod_small by lia. lia.
    + destruct (IH (n / 10) (String (digit_char (n mod 10)) acc)) as [ds [Heq [Hne [Hsp Hv]]]].
      { split; [apply Z.div_pos; lia|]. apply Z.div_lt_upper_bound; [lia|].
        replace (Z.of_nat (S fuel) + 1) with (1 + (Z.of_nat fuel + 1)) in Hn by lia.
        rewrite Z.pow_add_r in Hn by lia. lia. }
      cbn [dec_string_aux] in Heq.
      exists (ds +:+ String (digit_char (n mod 10)) EmptyString). split; [|split; [|split]].
      * rewrite Heq, string_app_assoc. reflexivity.
      * destruct ds; [contradiction | discriminate].
      * intros rest x y Hsp'. rewrite !string_app_assoc, !string_app_cons, !string_app_empty.
        rewrite (Hsp _ (String (digit_char (n mod 10)) x) y); [reflexivity|].
        apply Hone; [apply Z.mod_pos_bound; lia | exact Hsp'].
      * rewrite digits_value_app, Hv. cbn [digits_value].
        rewrite (proj2 (Hdigit (n mod 10) (Z.mod_pos_bound n 10 ltac:(lia)))).
        pose proof (Z.div_mod n 10 ltac:(lia)). lia.
Qed.

Lemma dec_string_spec (n : Z) :
  0 <= n ->
  dec_string n <> EmptyString /\
  (forall rest x y, span_digits rest = (x, y) ->
     span_digits (dec_string n +:+ rest) = (dec_string n +:+ x, y)) /\
  digits_value 0 (dec_string n) = n.
Proof.
  intros Hn. unfold dec_string.
  destruct (dec_string_aux_spec (Z.to_nat (Z.log2 n)) n EmptyString) as [ds [Heq Hds]].
  - split; [exact Hn|]. rewrite Z2Nat.id by apply Z.log2_nonneg.
    destruct (Z.eq_dec n 0) as [->|Hn0]; [cbn; lia|].
    pose proof (Z.log2_spec n ltac:(lia)) as [_ Hup].
    pose proof (Z.log2_nonneg n).
    assert (2 ^ Z.succ (Z.log2 n) <= 10 ^ (Z.log2 n + 1)).
    { rewrite <- Z.add_1_r. apply Z.pow_le_mono_l. lia. }
    lia.
  - rewrite Heq, string_app_nil. exact Hds.
Qed.

Lemma parse_u64_dec (n : Z) (rest : string) :
  0 <= n -> span_digits rest = (EmptyString, rest) ->
  parse_u64 (dec_string n +:+ rest)
  = if n <? u64_modulus then Some (rest, n) else None.
Proof.
  intros Hn Hrest. destruct (dec_string_spec n Hn) as [Hne [Hsp Hv]].
  unfold parse_u64. rewrite (Hsp _ _ _ Hrest), string_app_nil.
  destruct (dec_string n) as [|c ds] eqn:Hds; [contradiction|].
  rewrite Hv. reflexivity.
Qed.

Lemma span_digits_tab (rest : string) :
  span_digits (String tab_char rest) = (EmptyString, String tab_char rest).
Proof. reflexivity. Qed.

Lemma span_digits_lf (rest : string) :
  span_digits (String lf_char rest) = (EmptyString, String lf_char rest).
Proof. reflexivity. Qed.

(** The index line written for an entry, followed by [tail]: the parser
    reads the entry back and stops at [tail], or fails when a field does
    not fit in [u64]. *)
Lemma parse_rendered (e : FaiEntry.t) (tail : string) :
  has_tab (FaiEntry.name e) = false ->
  0 <= FaiEntry.length e -> 0 <= FaiEntry.offset e ->
  0 <= FaiEntry.line_bases e -> 0 <= FaiEntry.line_width e ->
  span_digits tail = (EmptyString, tail) ->
  parse_fai_line (render_fai_line e +:+ tail)
  = if (FaiEntry.length e <? u64_modulus) && (FaiEntry.offset e <? u64_modulus)
       && (FaiEntry.line_bases e <? u64_modulus) && (FaiEntry.line_width e <? u64_modulus)
    then option_map (fun rest => (rest, e)) (line_ending tail) else None.
Proof.
  destruct e as [name len off lb lw]. cbn [FaiEntry.name FaiEntry.length FaiEntry.offset
    FaiEntry.line_bases FaiEntry.line_width].
  intros Hname Hlen Hoff Hlb Hlw Htail.
  unfold render_fai_line, fai_line. cbn [FaiEntry.name FaiEntry.length FaiEntry.offset
    FaiEntry.line_bases FaiEntry.line_width String.concat].
  unfold tab. rewrite !string_app_assoc, !string_app_cons, !string_app_empty.
  unfold parse_fai_line. rewrite (take_until_tab_app _ _ Hname).
  assert (Htab : Ascii.eqb tab_char tab_char = true) by reflexivity.
  cbn [mbind option_bind char_tab]. rewrite Htab. cbn [mbind option_bind].
  rewrite (parse_u64_dec len) by (exact Hlen || apply span_digits_tab).
  destruct (len <? u64_modulus); [|reflexivity].
  cbn [mbind option_bind char_tab]. rewrite Htab. cbn [mbind option_bind].
  rewrite (parse_u64_dec off) by (exact Hoff || apply span_digits_tab).
  destruct (off <? u64_modulus); [|reflexivity].
  cbn [mbind option_bind char_tab]. rewrite Htab. cbn [mbind option_bind].
  rewrite (parse_u64_dec lb) by (exact Hlb || apply span_digits_tab).
  destruct (lb <? u64_modulus); [|reflexivity].
  cbn [mbind option_bind char_tab]. rewrite Htab. cbn [mbind option_bind].
  rewrite (parse_u64_dec lw) by (exact Hlw || exact Htail).
  destruct (lw <? u64_modulus); [|reflexivity]. cbn [mbind option_bind andb].
  destruct (line_ending tail); reflexivity.
Qed.

Lemma parse_rendered_line (e : FaiEntry.t) :
  fai_entry_ok e -> parse_fai_line (render_fai_line e +:+ nl) = Some (EmptyString, e).
Proof.
  intros (Hn & Hl & Ho & Hb & Hw). unfold is_u64 in *.
  rewrite parse_rendered by (first [exact Hn | lia | apply span_digits_lf]).
  replace (FaiEntry.length e <? u64_modulus) with true by (symmetry; apply Z.ltb_lt; lia).
  replace (FaiEntry.offset e <? u64_modulus) with true by (symmetry; apply Z.ltb_lt; lia).
  replace (FaiEntry.line_bases e <? u64_modulus) with true by (symmetry; apply Z.ltb_lt; lia).
  replace (FaiEntry.line_width e <? u64_modulus) with true by (symmetry; apply Z.ltb_lt; lia).
  reflexivity.
Qed.

(** Reading well-formed lines inserts their entries in order. *)
Lemma from_lines_rendered (es : list FaiEntry.t) :
  Forall fai_entry_ok es ->
  forall m rest, from_lines m (fai_lines_of es ++ rest)
                 = from_lines (list_to_map (reverse (entry_pairs es)) ∪ m) rest.
Proof.
  induction 1 as [|e es He Hes IH]; intros m rest.
  - cbn. rewrite (left_id ∅ (∪) m). reflexivity.
  - cbn [fai_lines_of map app from_lines].
    change (String lf_char EmptyString) with nl.
    rewrite (parse_rendered_line e He), IH. f_equal.
    unfold entry_pairs. rewrite fmap_cons, reverse_cons, list_to_map_app.
    rewrite <- (assoc (∪)). f_equal. cbn.
    rewrite insert_empty, insert_union_singleton_l. reflexivity.
Qed.

(** The index of well-formed lines, as [from_reader] builds it. *)
Lemma from_reader_rendered (es : list FaiEntry.t) :
  Forall fai_entry_ok es ->
  from_reader (fai_lines_of es) = Ok {| entries := list_to_map (reverse (entry_pairs es)) |}.
Proof.
  intros Hes. unfold from_reader. rewrite <- (app_nil_r (fai_lines_of es)).
  rewrite (from_lines_rendered es Hes ∅ []). cbn [from_lines].
  rewrite (right_id ∅ (∪)). reflexivity.
Qed.

(** ** Index files written and read back *)

(** X13: reading an index file whose lines are well-formed entries (a name
    without a tab, four decimal fields that fit in [u64]) succeeds, in
    [FaiIndex::from_reader] and in [Fasta::from_reader]; the index maps
    each name to the entry of the last line that names it. *)
Theorem from_reader_round_trip (es : list FaiEntry.t) :
  Forall fai_entry_ok es ->
  (exists idx, from_reader (fai_lines_of es) = Ok idx /\
     (forall R (r : R), fasta_from_reader r (Some (fai_lines_of es))
                        = Ok {| reader := r; index := Some idx |}) /\
     (forall pre e post, es = pre ++ e :: post ->
        Forall (fun e' => FaiEntry.name e' <> FaiEntry.name e) post ->
        entries idx !! FaiEntry.name e = Some e) /\
     (forall n, is_Some (entries idx !! n) <-> exists e, e ∈ es /\ FaiEntry.name e = n)).
Proof.
  intros Hes. eexists. split; [apply (from_reader_rendered es Hes)|]. split; [|split].
  - intros R r. unfold fasta_from_reader. rewrite (from_reader_rendered es Hes). reflexivity.
  - intros pre e post -> Hpost. cbn [entries]. unfold entry_pairs.
    rewrite fmap_app, fmap_cons, reverse_app, reverse_cons, <- app_assoc, list_to_map_app.
    rewrite lookup_union_r.
    + cbn. rewrite lookup_insert_eq. reflexivity.
    + apply not_elem_of_list_to_map_1. rewrite fmap_reverse, elem_of_reverse.
      rewrite <- list_fmap_compose, list_elem_of_fmap. intros [e' [Heq He']]. rewrite Forall_forall in Hpost.
      exact (Hpost e' He' (eq_sym Heq)).
  - intros n. cbn [entries]. rewrite <- elem_of_dom, dom_list_to_map_L.
    rewrite elem_of_list_to_set. unfold entry_pairs.
    rewrite fmap_reverse, elem_of_reverse, <- list_fmap_compose, list_elem_of_fmap.
    split; intros [e [H1 H2]]; exists e.
    + split; [exact H2 | symmetry; exact H1].
    + split; [symmetry; exact H2 | exact H1].
Qed.

(** X14: after well-formed lines, a line whose fields are decimal numbers
    of which one does not fit in [u64] makes [from_reader] fail with
    [ParseError], whatever the lines after it. *)
Theorem from_reader_rejects_overflow (pre : list FaiEntry.t) (e : FaiEntry.t)
    (rest : list (result string io_error)) :
  Forall fai_entry_ok pre ->
  has_tab (FaiEntry.name e) = false ->
  0 <= FaiEntry.length e -> 0 <= FaiEntry.offset e ->
  0 <= FaiEntry.line_bases e -> 0 <= FaiEntry.line_width e ->
  u64_modulus <= FaiEntry.length e \/ u64_modulus <= FaiEntry.offset e \/
  u64_modulus <= FaiEntry.line_bases e \/ u64_modulus <= FaiEntry.line_width e ->
  from_reader (fai_lines_of pre ++ Ok (render_fai_line e) :: rest) = Err ParseError.
Proof.
  intros Hpre Hn Hl Ho Hb Hw Hbig. unfold from_reader.
  rewrite (from_lines_rendered pre Hpre). cbn [from_lines].
  change (String lf_char EmptyString) with nl.
  rewrite parse_rendered by (first [exact Hn | lia | apply span_digits_lf]).
  destruct Hbig as [H|[H|[H|H]]]; apply Z.ltb_ge in H; rewrite H;
    rewrite ?andb_false_r; reflexivity.
Qed.

(** X15: after well-formed lines, a blank line, or a well-formed line
    followed by a sixth tab-separated column, makes [from_reader] fail
    with [ParseError], whatever the lines after it. *)
Theorem from_reader_rejects_malformed (pre : list FaiEntry.t) (e : FaiEntry.t) (x : string)
    (rest : list (result string io_error)) :
  Forall fai_entry_ok pre ->
  from_reader (fai_lines_of pre ++ Ok EmptyString :: rest) = Err ParseError /\
  (fai_entry_ok e ->
   from_reader (fai_lines_of pre ++ Ok (render_fai_line e +:+ String tab_char x) :: rest)
   = Err ParseError).
Proof.
  intros Hpre. unfold from_reader. split.
  - rewrite (from_lines_rendered pre Hpre). reflexivity.
  - intros (Hn & Hl & Ho & Hb & Hw). unfold is_u64 in *.
    rewrite (from_lines_rendered pre Hpre). cbn [from_lines].
    rewrite string_app_assoc, string_app_cons.
    rewrite parse_rendered by (first [exact Hn | lia | apply span_digits_tab]).
    replace (line_ending (String tab_char (x +:+ String lf_char EmptyString))) with
      (@None string) by reflexivity.
    destruct (_ && _); reflexivity.
Qed.

Lemma rewritten_entries_ok : Forall fai_entry_ok rewritten_entries.
Proof.
  unfold rewritten_entries, fai_entry_ok, is_u64, u64_modulus.
  repeat constructor; cbn; lia.
Qed.

Lemma from_reader_round_trip_witness :
  Forall fai_entry_ok rewritten_entries /\
  exists idx, from_reader (fai_lines_of rewritten_entries) = Ok idx /\
    entries idx !! "chr1" = Some (FaiEntry.mk "chr1" 5 0 5 6).
Proof.
  split; [exact rewritten_entries_ok|].
  destruct (from_reader_round_trip rewritten_entries rewritten_entries_ok)
    as [idx [H1 [_ [H3 _]]]].
  exists idx. split; [exact H1|].
  apply (H3 [FaiEntry.mk "chr1" 12 6 12 13; FaiEntry.mk "chr2" 8 30 8 9]
            (FaiEntry.mk "chr1" 5 0 5 6) []); [reflexivity | constructor].
Defined.

Lemma from_reader_rejects_overflow_witness :
  from_reader (fai_lines_of rewritten_entries
               ++ [Ok (render_fai_line (FaiEntry.mk "chr3" (2 ^ 64) 0 60 61))])
  = Err ParseError.
Proof.
  apply (from_reader_rejects_overflow rewritten_entries
           (FaiEntry.mk "chr3" (2 ^ 64) 0 60 61) []);
    first [exact rewritten_entries_ok | reflexivity | cbn; lia | left; cbn; unfold u64_modulus; lia].
Defined.

Lemma from_reader_rejects_malformed_witness :
  from_reader (fai_lines_of rewritten_entries
               ++ [Ok (render_fai_line (FaiEntry.mk "chr3" 4 0 4 5) +:+ String tab_char "x")])
  = Err ParseError.
Proof.
  apply (proj2 (from_reader_rejects_malformed rewritten_entries
                  (FaiEntry.mk "chr3" 4 0 4 5) "x" [] rewritten_entries_ok)).
  unfold fai_entry_ok, is_u64, u64_modulus. cbn. repeat split; first [reflexivity | lia].
Defined.
